(** * Verification model of the paper-trading core of kalshi-trading-bot

    Shallow embedding of [src/paper_trader.py] (ledger), [src/performance.py]
    (metrics engine) and [src/allocator.py] (allocator).

    Modelling choices:
    - Python floats are modelled as real numbers [R]; [float('inf')] is the
      extra value [PInf] of [xfloat] where the code can produce it
      (profit factor, Sortino ratio).
    - Python dicts are association lists, in insertion order: [d[k] = v]
      replaces the value in place when [k] is present and appends otherwise,
      [del d[k]] removes the entry.
    - [uuid.uuid4()] is modelled by a supply of fresh identifiers: a counter
      [next_uuid] in the trader state.
    - [datetime.now()] is an explicit argument [now] (seconds, as [Z]).
    - Log calls that precede a rejected [execute_signal] are recorded as the
      rejection reason; the Python return value is [None] in all of them. *)

From Stdlib Require Import Reals Lra Lia ZArith List String Bool Arith.
Import ListNotations.
Open Scope string_scope.
Open Scope R_scope.

(** ** Python dicts as association lists *)
Section Alist.
Context {K V : Type} (keq : forall x y : K, {x = y} + {x <> y}).

(** [d.get(k)] *)
Fixpoint alookup (k : K) (l : list (K * V)) : option V :=
  match l with
  | [] => None
  | (k', v) :: l' => if keq k k' then Some v else alookup k l'
  end.

(** [d[k] = v]: in place when present, appended otherwise *)
Fixpoint aset (k : K) (v : V) (l : list (K * V)) : list (K * V) :=
  match l with
  | [] => [(k, v)]
  | (k', v') :: l' => if keq k k' then (k', v) :: l' else (k', v') :: aset k v l'
  end.

(** [del d[k]] (keys are unique in a dict) *)
Fixpoint adel (k : K) (l : list (K * V)) : list (K * V) :=
  match l with
  | [] => []
  | (k', v') :: l' => if keq k k' then l' else (k', v') :: adel k l'
  end.
End Alist.

(** Python [sum(...)] over floats *)
Definition rsum (l : list R) : R := fold_right Rplus 0 l.

(** * Ledger: src/paper_trader.py *)

Inductive PositionStatus := OPEN | CLOSED | EXPIRED.

Definition status_eqb (a b : PositionStatus) : bool :=
  match a, b with
  | OPEN, OPEN | CLOSED, CLOSED | EXPIRED, EXPIRED => true
  | _, _ => false
  end.

(** [PaperPosition]; [metadata] holds string values *)
Record PaperPosition := mkPosition {
  pos_id : nat;
  strategy_name : string;
  market_id : string;
  ticker : string;
  side : string;
  quantity : Z;
  entry_price : R;
  entry_time : Z;
  entry_cost : R;
  exit_price : option R;
  exit_time : option Z;
  exit_value : option R;
  status : PositionStatus;
  metadata : list (string * string)
}.

(** [PaperPosition.pnl] *)
Definition pnl (p : PaperPosition) : R :=
  match status p with
  | OPEN => 0
  | _ => match exit_value p with Some v => v - entry_cost p | None => 0 end
  end.

(** [StrategyPortfolio]; the property [total_trades] is [portfolio_total_trades] *)
Record StrategyPortfolio := mkPortfolio {
  pf_strategy_name : string;
  initial_capital : R;
  current_capital : R;
  positions : list (nat * PaperPosition);
  closed_positions : list PaperPosition
}.

Definition open_positions (pf : StrategyPortfolio) : list PaperPosition :=
  filter (fun p => status_eqb (status p) OPEN) (map snd (positions pf)).

Definition total_exposure (pf : StrategyPortfolio) : R :=
  rsum (map entry_cost (open_positions pf)).

Definition available_capital (pf : StrategyPortfolio) : R :=
  current_capital pf - total_exposure pf.

Definition portfolio_total_trades (pf : StrategyPortfolio) : nat := List.length (closed_positions pf).

(** [StrategyPortfolio.total_pnl] *)
Definition total_pnl (pf : StrategyPortfolio) : R := rsum (map pnl (closed_positions pf)).

(** [StrategyPortfolio.winning_trades] *)
Definition portfolio_winning_trades (pf : StrategyPortfolio) : nat :=
  List.length (filter (fun p => if Rgt_dec (pnl p) 0 then true else false)
                 (closed_positions pf)).

(** [StrategyPortfolio.win_rate] *)
Definition portfolio_win_rate (pf : StrategyPortfolio) : R :=
  if Nat.eqb (portfolio_total_trades pf) 0 then 0
  else INR (portfolio_winning_trades pf) / INR (portfolio_total_trades pf) * 100.

(** [RiskConfig] *)
Record RiskConfig := mkRiskConfig {
  max_total_capital : R;
  max_position_size : R;
  max_daily_loss : R;
  max_concurrent_positions : nat;
  max_exposure_pct : R
}.

(** [Signal] (fields used by the ledger) *)
Record Signal := mkSignal {
  sig_market_id : string;
  sig_side : string;
  sig_size : R;
  sig_strategy_name : string;
  sig_metadata : list (string * string)
}.

(** [PaperTrader] state: portfolios, [_daily_pnl], and the uuid supply *)
Record PaperTrader := mkTrader {
  portfolios : list (string * StrategyPortfolio);
  daily_pnl : R;
  next_uuid : nat
}.

Definition empty_trader : PaperTrader := mkTrader [] 0 0.

(** The reason logged before [execute_signal] returns [None] *)
Inductive Rejection :=
  | NoPortfolio | InsufficientCapital | PositionTooLarge
  | WouldExceedMaxExposure | MaxPositionsReached | DailyLossLimitReached
  | QuantityTooSmall.

Inductive ExecResult :=
  | Opened (p : PaperPosition)
  | Rejected (r : Rejection).

Section Ledger.
Variable risk_config : RiskConfig.

(** [PaperTrader.initialize_portfolio] *)
Definition initialize_portfolio (s : PaperTrader) (name : string) (capital : R)
  : PaperTrader :=
  mkTrader (aset string_dec name (mkPortfolio name capital capital [] []) (portfolios s))
           (daily_pnl s) (next_uuid s).

(** [PaperTrader._check_risk_limits]: [None] when all checks pass *)
Definition check_risk_limits (s : PaperTrader) (sg : Signal) (pf : StrategyPortfolio)
  : option Rejection :=
  if Rgt_dec (sig_size sg) (available_capital pf) then Some InsufficientCapital
  else if Rgt_dec (sig_size sg) (max_position_size risk_config) then Some PositionTooLarge
  else
    let total_exp := rsum (map (fun kp => total_exposure (snd kp)) (portfolios s)) in
    let max_exp := max_total_capital risk_config * max_exposure_pct risk_config in
    if Rgt_dec (total_exp + sig_size sg) max_exp then Some WouldExceedMaxExposure
    else
      let total_pos :=
        fold_right Nat.add 0%nat
          (map (fun kp => List.length (open_positions (snd kp))) (portfolios s)) in
      if Nat.leb (max_concurrent_positions risk_config) total_pos
      then Some MaxPositionsReached
      else if Rlt_dec (daily_pnl s) (- max_daily_loss risk_config)
      then Some DailyLossLimitReached
      else None.

(** Python [int(x)] on a float: truncation toward zero *)
Definition py_int (x : R) : Z :=
  if Rle_dec 0 x then Int_part x else (- Int_part (- x))%Z.

(** [PaperTrader.execute_signal] *)
Definition execute_signal (s : PaperTrader) (sg : Signal) (market_price : R) (now : Z)
  : ExecResult * PaperTrader :=
  match alookup string_dec (sig_strategy_name sg) (portfolios s) with
  | None => (Rejected NoPortfolio, s)
  | Some pf =>
    match check_risk_limits s sg pf with
    | Some r => (Rejected r, s)
    | None =>
      let price := if string_dec (sig_side sg) "yes" then market_price
                   else 1 - market_price in
      let quantity := if Rgt_dec price 0 then py_int (sig_size sg / price) else 0%Z in
      if Z.leb quantity 0 then (Rejected QuantityTooSmall, s)
      else
        let entry_cost := IZR quantity * price in
        let id := next_uuid s in
        let position :=
          mkPosition id (sig_strategy_name sg) (sig_market_id sg) (sig_market_id sg)
            (sig_side sg) quantity price now entry_cost None None None OPEN
            (sig_metadata sg) in
        let pf' := mkPortfolio (pf_strategy_name pf) (initial_capital pf)
                     (current_capital pf) (aset Nat.eq_dec id position (positions pf))
                     (closed_positions pf) in
        (Opened position,
         mkTrader (aset string_dec (sig_strategy_name sg) pf' (portfolios s))
                  (daily_pnl s) (S id))
    end
  end.

(** The in-place update of the position object in [close_position] *)
Definition mark_closed (exit_price : R) (reason : string) (now : Z)
    (position : PaperPosition) : PaperPosition :=
  let price := if string_dec (side position) "yes" then exit_price
               else 1 - exit_price in
  let exit_value := IZR (quantity position) * price in
  mkPosition (pos_id position) (strategy_name position) (market_id position)
    (ticker position) (side position) (quantity position) (entry_price position)
    (entry_time position) (entry_cost position) (Some price) (Some now)
    (Some exit_value) CLOSED
    (aset string_dec "close_reason" reason (metadata position)).

(** The loop of [close_position] over [self.portfolios.values()] *)
Fixpoint close_in (position_id : nat) (exit_price : R) (reason : string) (now : Z)
    (ps : list (string * StrategyPortfolio))
  : option (list (string * StrategyPortfolio) * PaperPosition) :=
  match ps with
  | [] => None
  | (k, pf) :: rest =>
    match alookup Nat.eq_dec position_id (positions pf) with
    | Some position =>
      let position' := mark_closed exit_price reason now position in
      let pf' := mkPortfolio (pf_strategy_name pf) (initial_capital pf)
                   (current_capital pf + pnl position')
                   (adel Nat.eq_dec position_id (positions pf))
                   (closed_positions pf ++ [position']) in
      Some ((k, pf') :: rest, position')
    | None =>
      match close_in position_id exit_price reason now rest with
      | Some (rest', position') => Some ((k, pf) :: rest', position')
      | None => None
      end
    end
  end.

(** [PaperTrader.close_position] *)
Definition close_position (s : PaperTrader) (position_id : nat) (exit_price : R)
    (reason : string) (now : Z) : option PaperPosition * PaperTrader :=
  match close_in position_id exit_price reason now (portfolios s) with
  | Some (ps', position') =>
    (Some position', mkTrader ps' (daily_pnl s + pnl position') (next_uuid s))
  | None => (None, s)
  end.

(** The market-data dict passed to [check_exits]: [None] for a missing key *)
Record MarketData := mkMarketData {
  md_market_id : option string;
  md_yes_price : option R
}.

(** The dict [pos_dict] handed to [strategy.should_exit] *)
Record PosView := mkPosView {
  pv_entry_price : R;
  pv_side : string;
  pv_metadata : list (string * string)
}.

(** A strategy, as seen by [check_exits] *)
Record Strategy := mkStrategy {
  st_name : string;
  should_exit : PosView -> MarketData -> bool
}.

Definition ticker_matches (md : MarketData) (position : PaperPosition) : bool :=
  match md_market_id md with
  | Some m => if string_dec (ticker position) m then true else false
  | None => false
  end.

(** The loop body of [check_exits] over the snapshot [list(open_positions)] *)
Fixpoint check_exits_loop (st : Strategy) (md : MarketData) (now : Z)
    (snapshot : list PaperPosition) (s : PaperTrader)
  : list PaperPosition * PaperTrader :=
  match snapshot with
  | [] => ([], s)
  | position :: rest =>
    if negb (ticker_matches md position) then check_exits_loop st md now rest s
    else
      let pos_dict := mkPosView (entry_price position) (side position)
                        (metadata position) in
      if should_exit st pos_dict md then
        let yes_price := match md_yes_price md with Some y => y | None => 0.5 end in
        let (result, s1) := close_position s (pos_id position) yes_price
                              "strategy_exit" now in
        let (closed, s2) := check_exits_loop st md now rest s1 in
        match result with
        | Some r => (r :: closed, s2)
        | None => (closed, s2)
        end
      else check_exits_loop st md now rest s
  end.

(** [PaperTrader.check_exits] *)
Definition check_exits (s : PaperTrader) (st : Strategy) (md : MarketData) (now : Z)
  : list PaperPosition * PaperTrader :=
  match alookup string_dec (st_name st) (portfolios s) with
  | None => ([], s)
  | Some pf => check_exits_loop st md now (open_positions pf) s
  end.

(** [PaperTrader.reset_daily_stats] *)
Definition reset_daily_stats (s : PaperTrader) : PaperTrader :=
  mkTrader (portfolios s) 0 (next_uuid s).

(** States reachable from a fresh [PaperTrader] *)
Inductive reachable : PaperTrader -> Prop :=
| reach_init : reachable empty_trader
| reach_initialize s name cap :
    reachable s -> reachable (initialize_portfolio s name cap)
| reach_execute s sg mp now :
    reachable s -> reachable (snd (execute_signal s sg mp now))
| reach_close s id xp reason now :
    reachable s -> reachable (snd (close_position s id xp reason now))
| reach_exits s st md now :
    reachable s -> reachable (snd (check_exits s st md now))
| reach_reset s : reachable s -> reachable (reset_daily_stats s).

End Ledger.

(** A row of [summary["strategies"]] in [PaperTrader.get_summary] *)
Record StrategySummary := mkStrategySummary {
  ss_capital : R;
  ss_available : R;
  ss_exposure : R;
  ss_open_positions : nat;
  ss_total_trades : nat;
  ss_win_rate : R;
  ss_total_pnl : R
}.

(** The dict returned by [PaperTrader.get_summary] *)
Record Summary := mkSummary {
  su_total_capital : R;
  su_total_pnl : R;
  su_daily_pnl : R;
  su_strategies : list (string * StrategySummary)
}.

Definition strategy_summary (pf : StrategyPortfolio) : StrategySummary :=
  mkStrategySummary (current_capital pf) (available_capital pf) (total_exposure pf)
    (List.length (open_positions pf)) (portfolio_total_trades pf) (portfolio_win_rate pf)
    (total_pnl pf).

(** [PaperTrader.get_summary] *)
Definition get_summary (s : PaperTrader) : Summary :=
  mkSummary (rsum (map (fun kp => current_capital (snd kp)) (portfolios s)))
    (rsum (map (fun kp => total_pnl (snd kp)) (portfolios s)))
    (daily_pnl s)
    (fold_left (fun acc kp => aset string_dec (fst kp) (strategy_summary (snd kp)) acc)
       (portfolios s) []).

(** [PaperTrader.get_all_positions]: one [extend] per portfolio, in dict order *)
Definition get_all_positions (s : PaperTrader) (status_arg : string) : list PaperPosition :=
  flat_map (fun kp =>
    let portfolio := snd kp in
    if string_dec status_arg "open" then open_positions portfolio
    else if string_dec status_arg "closed" then closed_positions portfolio
    else (map snd (positions portfolio) ++ closed_positions portfolio)%list) (portfolios s).

(** * Metrics engine: src/performance.py *)

(** A float that the code may set to [float('inf')] *)
Inductive xfloat := Fin (x : R) | PInf.

(** [StrategyMetrics] ([last_updated] omitted) *)
Record StrategyMetrics := mkMetrics {
  sm_strategy_name : string;
  total_return : R;
  total_return_pct : R;
  sharpe_ratio : R;
  sortino_ratio : xfloat;
  max_drawdown : R;
  total_trades : nat;
  winning_trades : nat;
  losing_trades : nat;
  win_rate : R;
  average_win : R;
  average_loss : R;
  profit_factor : xfloat;
  expectancy : R;
  average_hold_time_hours : R;
  m_current_capital : R;
  peak_capital : R
}.

(** [StrategyMetrics(strategy_name=...)] with [current_capital] set *)
Definition zero_metrics (name : string) (cap : R) : StrategyMetrics :=
  mkMetrics name 0 0 0 (Fin 0) 0 0 0 0 0 0 0 (Fin 0) 0 0 cap 0.

Definition trades_per_year : R := 2500.

Definition returns_of (trades : list PaperPosition) (initial_capital : R) : list R :=
  map (fun t => pnl t / initial_capital) trades.

Definition mean (l : list R) : R := rsum l / INR (List.length l).

(** [PerformanceTracker._calculate_sharpe] *)
Definition calculate_sharpe (trades : list PaperPosition) (initial_capital : R)
    (risk_free_rate : R) : R :=
  if Nat.ltb (List.length trades) 2 then 0
  else
    let returns := returns_of trades initial_capital in
    let mean_return := rsum returns / INR (List.length returns) in
    let variance := rsum (map (fun r => (r - mean_return) ^ 2) returns)
                    / INR (List.length returns) in
    let std_return := if Rgt_dec variance 0 then sqrt variance else 0 in
    if Req_EM_T std_return 0 then 0
    else
      let annualized_return := mean_return * trades_per_year in
      let annualized_std := std_return * sqrt trades_per_year in
      (annualized_return - risk_free_rate) / annualized_std.

Definition is_negative (r : R) : bool := if Rlt_dec r 0 then true else false.

(** [PerformanceTracker._calculate_sortino] *)
Definition calculate_sortino (trades : list PaperPosition) (initial_capital : R)
    (risk_free_rate : R) : xfloat :=
  if Nat.ltb (List.length trades) 2 then Fin 0
  else
    let returns := returns_of trades initial_capital in
    let mean_return := rsum returns / INR (List.length returns) in
    match filter is_negative returns with
    | [] => PInf
    | negative_returns =>
      let downside_variance := rsum (map (fun r => r ^ 2) negative_returns)
                               / INR (List.length returns) in
      let downside_std := sqrt downside_variance in
      if Req_EM_T downside_std 0 then Fin 0
      else
        let annualized_return := mean_return * trades_per_year in
        let annualized_downside := downside_std * sqrt trades_per_year in
        Fin ((annualized_return - risk_free_rate) / annualized_downside)
    end.

(** Sort key [t.exit_time or t.entry_time] *)
Definition exit_key (t : PaperPosition) : Z :=
  match exit_time t with Some e => e | None => entry_time t end.

(** Stable insertion used by Python's [sorted] (ascending) *)
Fixpoint insert_by_key (t : PaperPosition) (l : list PaperPosition) : list PaperPosition :=
  match l with
  | [] => [t]
  | u :: l' => if Z.leb (exit_key u) (exit_key t) then u :: insert_by_key t l' else t :: l
  end.

Definition sort_by_exit (l : list PaperPosition) : list PaperPosition :=
  fold_left (fun acc t => insert_by_key t acc) l [].

(** The capital series rebuilt from trades: [capital += trade.pnl] *)
Fixpoint running_capital (capital : R) (l : list PaperPosition) : list R :=
  match l with
  | [] => []
  | t :: l' => (capital + pnl t) :: running_capital (capital + pnl t) l'
  end.

(** The peak-tracking loop of [_calculate_max_drawdown] *)
Fixpoint drawdown_loop (peak max_dd : R) (history : list R) : R :=
  match history with
  | [] => max_dd
  | capital :: rest =>
    let peak' := if Rgt_dec capital peak then capital else peak in
    let drawdown := if Rgt_dec peak' 0 then (peak' - capital) / peak' else 0 in
    drawdown_loop peak' (Rmax max_dd drawdown) rest
  end.

(** [PerformanceTracker._calculate_max_drawdown]; [capital_history] is
    [self._capital_history.get(strategy_name, [])] *)
Definition calculate_max_drawdown (capital_history : list R) (pf : StrategyPortfolio) : R :=
  let history :=
    match capital_history with
    | [] => initial_capital pf
            :: running_capital (initial_capital pf) (sort_by_exit (closed_positions pf))
    | h => h
    end in
  match history with
  | [] | [_] => 0
  | first :: _ => drawdown_loop first 0 history * 100
  end.

(** [max(self._capital_history.get(strategy_name, [initial_capital]))] *)
Definition peak_of (capital_history : list R) (initial_capital : R) : R :=
  match capital_history with
  | [] => initial_capital
  | x :: l => fold_left Rmax l x
  end.

Definition hold_time_hours (t : PaperPosition) : option R :=
  match exit_time t with
  | Some e => Some (IZR (e - entry_time t) / 3600)
  | None => None
  end.

Definition is_win (t : PaperPosition) : bool := if Rgt_dec (pnl t) 0 then true else false.
Definition is_loss (t : PaperPosition) : bool := if Rle_dec (pnl t) 0 then true else false.

(** [PerformanceTracker.calculate_metrics]; [None] is the [ZeroDivisionError]
    raised by [total_return / portfolio.initial_capital] when the initial
    capital is 0 and there are trades. *)
Definition calculate_metrics (capital_history : list R) (pf : StrategyPortfolio)
  : option StrategyMetrics :=
  let trades := closed_positions pf in
  match trades with
  | [] => Some (zero_metrics (pf_strategy_name pf) (current_capital pf))
  | _ =>
    if Req_EM_T (initial_capital pf) 0 then None
    else
      let n := List.length trades in
      let total_return := rsum (map pnl trades) in
      let total_return_pct := total_return / initial_capital pf * 100 in
      let wins := filter is_win trades in
      let losses := filter is_loss trades in
      let win_rate := INR (List.length wins) / INR n * 100 in
      let average_win := match wins with
                         | [] => 0 | _ => rsum (map pnl wins) / INR (List.length wins) end in
      let average_loss := match losses with
                          | [] => 0 | _ => rsum (map pnl losses) / INR (List.length losses) end in
      let gross_profit := match wins with [] => 0 | _ => rsum (map pnl wins) end in
      let gross_loss := match losses with [] => 0 | _ => Rabs (rsum (map pnl losses)) end in
      let profit_factor :=
        if Rgt_dec gross_loss 0 then Fin (gross_profit / gross_loss) else PInf in
      let expectancy := total_return / INR n in
      let hold_times := fold_right (fun t acc =>
                          match hold_time_hours t with Some h => h :: acc | None => acc end)
                          [] trades in
      let average_hold := match hold_times with
                          | [] => 0 | _ => rsum hold_times / INR (List.length hold_times) end in
      Some (mkMetrics (pf_strategy_name pf) total_return total_return_pct
              (calculate_sharpe trades (initial_capital pf) 0.05)
              (calculate_sortino trades (initial_capital pf) 0.05)
              (calculate_max_drawdown capital_history pf)
              n (List.length wins) (List.length losses) win_rate average_win average_loss
              profit_factor expectancy average_hold (current_capital pf)
              (peak_of capital_history (initial_capital pf)))
  end.

(** The in-memory state of [PerformanceTracker]: [_metrics] and
    [_capital_history] (the SQLite writes are not modelled) *)
Record PerformanceTracker := mkTracker {
  metrics_cache : list (string * StrategyMetrics);
  capital_history : list (string * list R)
}.

Definition empty_tracker : PerformanceTracker := mkTracker [] [].

(** [self._capital_history.get(strategy_name, [])] *)
Definition history_of (t : PerformanceTracker) (name : string) : list R :=
  match alookup string_dec name (capital_history t) with Some h => h | None => [] end.

(** [PerformanceTracker.record_capital_snapshot], in-memory part *)
Definition record_capital_snapshot (t : PerformanceTracker) (name : string) (capital : R)
  : PerformanceTracker :=
  mkTracker (metrics_cache t)
    (aset string_dec name (history_of t name ++ [capital])%list (capital_history t)).

(** [PerformanceTracker.calculate_metrics] with its cache update; [None] is a
    raised exception: [ZeroDivisionError] (see [calculate_metrics]) or the
    [ValueError] of [max([])] for a stored empty history *)
Definition tracker_calculate_metrics (t : PerformanceTracker) (pf : StrategyPortfolio)
  : option (StrategyMetrics * PerformanceTracker) :=
  let name := pf_strategy_name pf in
  match closed_positions pf with
  | [] => Some (zero_metrics name (current_capital pf), t)
  | _ =>
    match calculate_metrics (history_of t name) pf with
    | None => None
    | Some m =>
      match alookup string_dec name (capital_history t) with
      | Some [] => None
      | _ => Some (m, mkTracker (aset string_dec name m (metrics_cache t)) (capital_history t))
      end
    end
  end.

(** [PerformanceTracker.get_metrics] *)
Definition get_metrics (t : PerformanceTracker) (name : string) : option StrategyMetrics :=
  alookup string_dec name (metrics_cache t).

(** Stable insertion for [sorted(..., key=key, reverse=True)]: an element goes
    after every element whose key is at least its own *)
Fixpoint insert_desc_by {A : Type} (key : A -> R) (x : A) (l : list A) : list A :=
  match l with
  | [] => [x]
  | y :: l' => if Rle_dec (key x) (key y) then y :: insert_desc_by key x l' else x :: l
  end.

Definition sort_desc_by {A : Type} (key : A -> R) (l : list A) : list A :=
  fold_left (fun acc x => insert_desc_by key x acc) l [].

(** [PerformanceTracker.get_leaderboard] *)
Definition get_leaderboard (t : PerformanceTracker) (min_trades_for_ranking : nat)
  : list StrategyMetrics :=
  let qualified := filter (fun m => Nat.leb min_trades_for_ranking (total_trades m))
                     (map snd (metrics_cache t)) in
  sort_desc_by sharpe_ratio qualified.

(** * Allocator: src/allocator.py *)

(** [AllocatorConfig] (weights) *)
Record AllocatorConfig := mkAllocatorConfig {
  performance_weight : R;
  risk_weight : R
}.

(** [x - c] and [x / c] on a float that may be [inf], for a finite [c > 0] *)
Definition xsub (x : xfloat) (c : R) : xfloat :=
  match x with Fin v => Fin (v - c) | PInf => PInf end.
Definition xdiv (x : xfloat) (c : R) : xfloat :=
  match x with Fin v => Fin (v / c) | PInf => PInf end.
(** Python [min(a, x)] for a finite [a]: [min(a, inf) = a] *)
Definition xmin_l (a : R) (x : xfloat) : R :=
  match x with Fin v => Rmin a v | PInf => a end.

(** [CapitalAllocator.calculate_strategy_score] *)
Definition calculate_strategy_score (cfg : AllocatorConfig) (m : StrategyMetrics) : R :=
  if Nat.ltb (total_trades m) 3 then 0
  else
    let sharpe_score := Rmax 0 (Rmin 1 (sharpe_ratio m / 2)) in
    let win_rate_score := win_rate m / 100 in
    let profit_factor_score := Rmax 0 (xmin_l 1 (xdiv (xsub (profit_factor m) 1) 2)) in
    let drawdown_penalty := Rmin 1 (max_drawdown m / 20) in
    let performance_score :=
      0.4 * sharpe_score + 0.3 * win_rate_score + 0.3 * profit_factor_score in
    let score := performance_weight cfg * performance_score
                 - risk_weight cfg * drawdown_penalty in
    Rmax 0 score.

(** [AllocationResult] *)
Record AllocationResult := mkAllocationResult {
  ar_strategy_name : string;
  ar_current_capital : R;
  new_allocation : R;
  allocation_change : R;
  rank : nat;
  ar_score : R;
  reason : string
}.

(** One row of [rank_strategies]: [(name, score, metrics)] *)
Definition Ranking : Type := (string * R * StrategyMetrics)%type.

Definition rk_name (x : Ranking) : string := fst (fst x).
Definition rk_score (x : Ranking) : R := snd (fst x).
Definition rk_metrics (x : Ranking) : StrategyMetrics := snd x.

(** Stable insertion for [rankings.sort(key=score, reverse=True)] *)
Fixpoint insert_desc (x : Ranking) (l : list Ranking) : list Ranking :=
  match l with
  | [] => [x]
  | y :: l' => if Rle_dec (rk_score x) (rk_score y) then y :: insert_desc x l'
               else x :: l
  end.

Section Allocator.
Variable cfg : AllocatorConfig.
(** [performance_tracker.config.min_trades_for_ranking] *)
Variable min_trades_for_ranking : nat.
Variable total_capital : R.
(** [self.paper_trader.portfolios] *)
Variable ports : list (string * StrategyPortfolio).
(** [performance_tracker._capital_history.get(name, [])] *)
Variable capital_history_of : string -> list R.

Fixpoint collect_rankings (l : list (string * StrategyPortfolio)) : option (list Ranking) :=
  match l with
  | [] => Some []
  | (name, pf) :: rest =>
    match calculate_metrics (capital_history_of name) pf, collect_rankings rest with
    | Some m, Some r => Some ((name, calculate_strategy_score cfg m, m) :: r)
    | _, _ => None
    end
  end.

(** [CapitalAllocator.rank_strategies] ([None]: [calculate_metrics] raised) *)
Definition rank_strategies : option (list Ranking) :=
  match collect_rankings ports with
  | Some r => Some (fold_left (fun acc x => insert_desc x acc) r [])
  | None => None
  end.

(** [portfolio.current_capital if portfolio else 0] *)
Definition current_of (name : string) : R :=
  match alookup string_dec name ports with
  | Some pf => current_capital pf
  | None => 0
  end.

Definition is_qualified (x : Ranking) : bool :=
  (if Rgt_dec (rk_score x) 0 then true else false)
  || Nat.ltb (total_trades (rk_metrics x)) min_trades_for_ranking.

Definition reason_for (x : Ranking) : string :=
  if Rge_dec (rk_score x) 0.5 then "high_performer"
  else if Rge_dec (rk_score x) 0.25 then "moderate_performer"
  else if Nat.ltb (total_trades (rk_metrics x)) 5 then "insufficient_history"
  else "low_performer".

Fixpoint equal_rows (per_strategy : R) (rank_no : nat) (l : list Ranking)
  : list AllocationResult :=
  match l with
  | [] => []
  | x :: l' =>
    mkAllocationResult (rk_name x) (current_of (rk_name x)) per_strategy
      (per_strategy - current_of (rk_name x)) rank_no (rk_score x)
      "equal_allocation_no_qualified"
    :: equal_rows per_strategy (S rank_no) l'
  end.

(** The loop over [enumerate(qualified, 1)] *)
Fixpoint proposed_rows (total_score min_allocation : R) (nq : nat) (rank_no : nat)
    (l : list Ranking) : list AllocationResult :=
  match l with
  | [] => []
  | x :: l' =>
    let current := current_of (rk_name x) in
    let base_allocation :=
      if Rgt_dec total_score 0 then rk_score x / total_score * total_capital
      else total_capital / INR nq in
    let new_allocation := Rmax min_allocation base_allocation in
    let new_allocation := Rmin new_allocation (total_capital * 0.5) in
    mkAllocationResult (rk_name x) current new_allocation (new_allocation - current)
      rank_no (rk_score x) (reason_for x)
    :: proposed_rows total_score min_allocation nq (S rank_no) l'
  end.

Definition scale_row (scale : R) (r : AllocationResult) : AllocationResult :=
  let na := new_allocation r * scale in
  mkAllocationResult (ar_strategy_name r) (ar_current_capital r) na
    (na - ar_current_capital r) (rank r) (ar_score r) (reason r).

(** The normalization step at the end of [calculate_allocations] *)
Definition normalize (results : list AllocationResult) : list AllocationResult :=
  let total_allocated := rsum (map new_allocation results) in
  if Rgt_dec total_allocated total_capital then
    map (scale_row (total_capital / total_allocated)) results
  else results.

(** [CapitalAllocator.calculate_allocations], after [rank_strategies] *)
Definition calculate_allocations_ranked (rankings : list Ranking)
  : list AllocationResult :=
  match rankings with
  | [] => []
  | _ =>
    let qualified := filter is_qualified rankings in
    match qualified with
    | [] => equal_rows (total_capital / INR (List.length rankings)) 1 rankings
    | _ =>
      let total_score := rsum (map rk_score qualified) in
      let min_allocation := total_capital / INR (List.length qualified) * 0.1 in
      normalize (proposed_rows total_score min_allocation (List.length qualified) 1
                   qualified)
    end
  end.

(** [CapitalAllocator.calculate_allocations] *)
Definition calculate_allocations : option (list AllocationResult) :=
  match rank_strategies with
  | Some rankings => Some (calculate_allocations_ranked rankings)
  | None => None
  end.
End Allocator.

(** The rebalancing state of [CapitalAllocator]: [_last_rebalance] and
    [_allocation_history] *)
Record AllocState := mkAllocState {
  last_rebalance : option Z;
  allocation_history : list (Z * list AllocationResult)
}.

(** [CapitalAllocator.should_rebalance]; times in seconds *)
Definition should_rebalance (rebalance_interval_hours : R) (st : AllocState) (now : Z) : bool :=
  match last_rebalance st with
  | None => true
  | Some t => if Rge_dec (IZR (now - t)) (rebalance_interval_hours * 3600) then true else false
  end.

(** The loop of [rebalance] over the allocations: each found portfolio gets
    [current_capital] and [initial_capital] set to [new_allocation] *)
Definition apply_allocation (ps : list (string * StrategyPortfolio)) (a : AllocationResult)
  : list (string * StrategyPortfolio) :=
  match alookup string_dec (ar_strategy_name a) ps with
  | Some pf =>
    aset string_dec (ar_strategy_name a)
      (mkPortfolio (pf_strategy_name pf) (new_allocation a) (new_allocation a)
         (positions pf) (closed_positions pf)) ps
  | None => ps
  end.

(** [CapitalAllocator.rebalance]; [None] is an exception raised inside
    [calculate_allocations] *)
Definition rebalance (cfg : AllocatorConfig) (min_trades_for_ranking : nat) (total_capital : R)
    (rebalance_interval_hours : R) (capital_history_of : string -> list R)
    (st : AllocState) (s : PaperTrader) (now : Z)
  : option (list AllocationResult * AllocState * PaperTrader) :=
  if negb (should_rebalance rebalance_interval_hours st now) then Some ([], st, s)
  else
    match calculate_allocations cfg min_trades_for_ranking total_capital (portfolios s)
            capital_history_of with
    | None => None
    | Some allocations =>
      Some (allocations,
            mkAllocState (Some now) (allocation_history st ++ [(now, allocations)])%list,
            mkTrader (fold_left apply_allocation allocations (portfolios s))
                     (daily_pnl s) (next_uuid s))
    end.

(** * Definitions following the spec's words, compared with the code *)

Definition clamp (lo hi x : R) : R := Rmax lo (Rmin hi x).

(** [clamp(x, 0, 1)] for a value that may be [inf] *)
Definition xclamp01 (x : xfloat) : R :=
  match x with Fin v => clamp 0 1 v | PInf => 1 end.

(** The composite score as §4.3 of the spec words it *)
Definition spec_score (cfg : AllocatorConfig) (m : StrategyMetrics) : R :=
  if Nat.ltb (total_trades m) 3 then 0
  else Rmax 0 (performance_weight cfg *
                 (0.4 * clamp 0 1 (sharpe_ratio m / 2) + 0.3 * clamp 0 1 (win_rate m / 100)
                  + 0.3 * xclamp01 (xdiv (xsub (profit_factor m) 1) 2))
               - risk_weight cfg * clamp 0 1 (max_drawdown m / 20)).

(** Population standard deviation of the per-trade returns *)
Definition pop_std (rs : list R) : R :=
  sqrt (rsum (map (fun r => (r - mean rs) ^ 2) rs) / INR (List.length rs)).

(** * Proof tools *)

Ltac rdec_step :=
  match goal with
  | |- context [Rle_dec ?a ?b] => destruct (Rle_dec a b)
  | |- context [Rlt_dec ?a ?b] => destruct (Rlt_dec a b)
  | |- context [Rgt_dec ?a ?b] => destruct (Rgt_dec a b)
  | |- context [Rge_dec ?a ?b] => destruct (Rge_dec a b)
  | |- context [Req_EM_T ?a ?b] => destruct (Req_EM_T a b)
  | |- context [Rcase_abs ?a] => destruct (Rcase_abs a)
  | H : context [Rle_dec ?a ?b] |- _ => destruct (Rle_dec a b)
  | H : context [Rlt_dec ?a ?b] |- _ => destruct (Rlt_dec a b)
  | H : context [Rgt_dec ?a ?b] |- _ => destruct (Rgt_dec a b)
  | H : context [Rge_dec ?a ?b] |- _ => destruct (Rge_dec a b)
  | H : context [Req_EM_T ?a ?b] |- _ => destruct (Req_EM_T a b)
  | H : context [Rcase_abs ?a] |- _ => destruct (Rcase_abs a)
  end.

Ltac rdec := repeat (rdec_step; simpl in *; try lra; try reflexivity).

Lemma rsum_app (l1 l2 : list R) : rsum (l1 ++ l2) = rsum l1 + rsum l2.
Proof. induction l1; simpl; [lra | rewrite IHl1; lra]. Qed.

Lemma clamp_id (x : R) : 0 <= x <= 1 -> clamp 0 1 x = x.
Proof. intros H. unfold clamp, Rmax, Rmin. rdec. Qed.

Lemma clamp_nonneg_min (x : R) : 0 <= x -> clamp 0 1 x = Rmin 1 x.
Proof. intros H. unfold clamp, Rmax, Rmin. rdec. Qed.

Lemma xclamp01_code (x : xfloat) : xclamp01 x = Rmax 0 (xmin_l 1 x).
Proof. destruct x; [reflexivity | simpl; unfold Rmax; rdec]. Qed.

Lemma Rmax_l_le (a b : R) : a <= Rmax a b.
Proof. unfold Rmax. rdec. Qed.

(** * C9: the composite score *)

(** C9 (amended): [calculate_strategy_score] is 0 below 3 trades and never
    negative; from 3 trades on it is
    [max(0, pw*(0.4*clamp(sharpe/2) + 0.3*win_rate/100 + 0.3*clamp((pf-1)/2))
    - rw*min(1, max_drawdown/20))], which is the spec's fully clamped formula
    whenever [0 <= win_rate <= 100] and [max_drawdown >= 0]. *)
Theorem calculate_strategy_score_spec (cfg : AllocatorConfig) (m : StrategyMetrics) :
  ((total_trades m < 3)%nat -> calculate_strategy_score cfg m = 0) /\
  0 <= calculate_strategy_score cfg m /\
  ((3 <= total_trades m)%nat ->
   calculate_strategy_score cfg m =
   Rmax 0 (performance_weight cfg *
             (0.4 * clamp 0 1 (sharpe_ratio m / 2) + 0.3 * (win_rate m / 100)
              + 0.3 * xclamp01 (xdiv (xsub (profit_factor m) 1) 2))
           - risk_weight cfg * Rmin 1 (max_drawdown m / 20))) /\
  ((3 <= total_trades m)%nat -> 0 <= win_rate m <= 100 -> 0 <= max_drawdown m ->
   calculate_strategy_score cfg m = spec_score cfg m).
Proof.
  unfold calculate_strategy_score, spec_score.
  assert (Hcode : (3 <= total_trades m)%nat ->
    calculate_strategy_score cfg m =
    Rmax 0 (performance_weight cfg *
             (0.4 * clamp 0 1 (sharpe_ratio m / 2) + 0.3 * (win_rate m / 100)
              + 0.3 * xclamp01 (xdiv (xsub (profit_factor m) 1) 2))
           - risk_weight cfg * Rmin 1 (max_drawdown m / 20))).
  { intros H3. unfold calculate_strategy_score.
    replace (Nat.ltb (total_trades m) 3) with false
      by (symmetry; apply Nat.ltb_ge; exact H3).
    rewrite xclamp01_code. reflexivity. }
  unfold calculate_strategy_score in Hcode.
  split; [| split; [| split]].
  - intros H. apply Nat.ltb_lt in H. rewrite H. reflexivity.
  - destruct (Nat.ltb (total_trades m) 3); [lra | apply Rmax_l_le].
  - exact Hcode.
  - intros H3 Hw Hd. rewrite (Hcode H3).
    replace (Nat.ltb (total_trades m) 3) with false
      by (symmetry; apply Nat.ltb_ge; exact H3).
    rewrite (clamp_id (win_rate m / 100)) by lra.
    rewrite (clamp_nonneg_min (max_drawdown m / 20)) by lra.
    reflexivity.
Qed.

Definition alloc_cfg0 : AllocatorConfig := mkAllocatorConfig 0.7 0.3.

(** A metrics record with three trades, two of them winners, 5% drawdown *)
Definition metrics_three_trades : StrategyMetrics :=
  mkMetrics "momentum" 4 4 1 (Fin 1) 5 3 2 1 (200 / 3) 3 (-2) (Fin 3) (4 / 3) 1 104 105.

(** A metrics record whose [win_rate] lies above 100 *)
Definition metrics_win_rate_200 : StrategyMetrics :=
  mkMetrics "momentum" 0 0 0 (Fin 0) 0 3 3 0 200 0 0 (Fin 1) 0 0 0 0.

(** Witness of C9 at [metrics_three_trades] *)
Lemma calculate_strategy_score_spec_witness :
  (3 <= total_trades metrics_three_trades)%nat /\
  0 <= win_rate metrics_three_trades <= 100 /\ 0 <= max_drawdown metrics_three_trades /\
  calculate_strategy_score alloc_cfg0 metrics_three_trades
  = spec_score alloc_cfg0 metrics_three_trades.
Proof.
  split; [simpl; lia |]. split; [simpl; lra |]. split; [simpl; lra |].
  apply (proj2 (proj2 (proj2 (calculate_strategy_score_spec alloc_cfg0
                                  metrics_three_trades)))); simpl; lra || lia.
Defined.

(** C9 (as stated) fails: with [win_rate = 200] the code scores
    [0.7 * 0.3 * 2 = 0.42], the fully clamped formula gives [0.21]. *)
Lemma calculate_strategy_score_unclamped_win_rate :
  calculate_strategy_score alloc_cfg0 metrics_win_rate_200 = 0.42 /\
  spec_score alloc_cfg0 metrics_win_rate_200 = 0.21.
Proof.
  unfold calculate_strategy_score, spec_score, xclamp01, xmin_l; simpl.
  unfold clamp, Rmax, Rmin. split; rdec.
Qed.

(** * C3: allocations never exceed the total capital *)

Lemma rsum_scale_rows (c : R) (l : list AllocationResult) :
  rsum (map new_allocation (map (scale_row c) l)) = rsum (map new_allocation l) * c.
Proof. induction l as [|r l IH]; simpl; [lra | rewrite IH; lra]. Qed.

Lemma rsum_equal_rows ports (per : R) (k : nat) (l : list Ranking) :
  rsum (map new_allocation (equal_rows ports per k l)) = INR (List.length l) * per.
Proof.
  revert k. induction l as [|x l IH]; intros k; simpl; [lra |].
  rewrite IH. destruct l; simpl; lra.
Qed.

(** C3: for any rankings (any number of strategies, scores and trade counts)
    and a total capital [T >= 0], the [new_allocation]s returned by
    [calculate_allocations] sum to at most [T]; when the proposed allocations
    of the qualified strategies sum to more than [T], every row is scaled by
    the same factor [T / sum] and the result sums to exactly [T]. *)
Theorem calculate_allocations_within_capital (mtr : nat) (T : R)
    (ports : list (string * StrategyPortfolio)) (rankings : list Ranking) :
  0 <= T ->
  rsum (map new_allocation (calculate_allocations_ranked mtr T ports rankings)) <= T /\
  (let qualified := filter (is_qualified mtr) rankings in
   let pre := proposed_rows T ports (rsum (map rk_score qualified))
                (T / INR (List.length qualified) * 0.1) (List.length qualified) 1
                qualified in
   qualified <> [] ->
   rsum (map new_allocation pre) > T ->
   calculate_allocations_ranked mtr T ports rankings
   = map (scale_row (T / rsum (map new_allocation pre))) pre /\
   rsum (map new_allocation (calculate_allocations_ranked mtr T ports rankings)) = T).
Proof.
  intros HT.
  assert (Hnorm : forall pre, rsum (map new_allocation pre) > T ->
            rsum (map new_allocation (map (scale_row (T / rsum (map new_allocation pre))) pre))
            = T).
  { intros pre Hgt. rewrite rsum_scale_rows. field. lra. }
  destruct rankings as [|x rs].
  - simpl. split; [lra |]. intros Hq. exfalso. apply Hq. reflexivity.
  - unfold calculate_allocations_ranked.
    destruct (filter (is_qualified mtr) (x :: rs)) as [|q qs] eqn:Eq.
    + split.
      * rewrite rsum_equal_rows. simpl List.length.
        rewrite S_INR. right. field.
        pose proof (pos_INR (List.length rs)). lra.
      * cbv zeta. intros Hq. exfalso. apply Hq. reflexivity.
    + cbv zeta. unfold normalize.
      set (pre := proposed_rows T ports (rsum (map rk_score (q :: qs)))
                    (T / INR (List.length (q :: qs)) * 0.1) (List.length (q :: qs)) 1
                    (q :: qs)).
      destruct (Rgt_dec (rsum (map new_allocation pre)) T) as [Hgt | Hle].
      * split; [rewrite (Hnorm pre Hgt); lra |].
        intros _ _. split; [reflexivity | apply (Hnorm pre Hgt)].
      * split; [lra |]. intros _ Hgt. contradiction.
Qed.

(** Witness of C3: two strategies sharing $200, one of them qualified *)
Definition ports_two : list (string * StrategyPortfolio) :=
  [("momentum", mkPortfolio "momentum" 100 100 [] []);
   ("mean_reversion", mkPortfolio "mean_reversion" 100 100 [] [])].

Definition rankings_two : list Ranking :=
  [("momentum", 0.5, metrics_three_trades);
   ("mean_reversion", 0, zero_metrics "mean_reversion" 100)].

Lemma calculate_allocations_within_capital_witness :
  0 <= 200 /\
  rsum (map new_allocation (calculate_allocations_ranked 5 200 ports_two rankings_two))
  <= 200.
Proof.
  split; [lra |].
  apply (proj1 (calculate_allocations_within_capital 5 200 ports_two rankings_two
                  ltac:(lra))).
Defined.

(** * C2: the spec's three-strategy rebalance example *)

(** Metrics with only the trade count set *)
Definition metrics_with_trades (name : string) (n : nat) : StrategyMetrics :=
  mkMetrics name 0 0 0 (Fin 0) 0 n 0 0 0 0 0 (Fin 0) 0 0 0 0.

Definition ports_three : list (string * StrategyPortfolio) :=
  [("momentum", mkPortfolio "momentum" 80 80 [] []);
   ("mean_reversion", mkPortfolio "mean_reversion" 60 60 [] []);
   ("market_making", mkPortfolio "market_making" 60 60 [] [])].

(** Scores [0.6; 0.3; 0.0]; the third strategy has 2 closed trades *)
Definition rankings_three : list Ranking :=
  [("momentum", 0.6, metrics_with_trades "momentum" 10);
   ("mean_reversion", 0.3, metrics_with_trades "mean_reversion" 10);
   ("market_making", 0, metrics_with_trades "market_making" 2)].

Lemma rankings_three_all_qualified : filter (is_qualified 5) rankings_three = rankings_three.
Proof. unfold rankings_three. cbn. unfold is_qualified. cbn. rdec. Qed.

Lemma rankings_three_allocations :
  calculate_allocations_ranked 5 200 ports_three rankings_three =
  [mkAllocationResult "momentum" 80 100 20 1 0.6 "high_performer";
   mkAllocationResult "mean_reversion" 60 (200 / 3) (200 / 3 - 60) 2 0.3 "moderate_performer";
   mkAllocationResult "market_making" 60 (20 / 3) (20 / 3 - 60) 3 0 "insufficient_history"].
Proof.
  unfold calculate_allocations_ranked.
  replace (filter (is_qualified 5) rankings_three) with rankings_three
    by (symmetry; apply rankings_three_all_qualified).
  unfold rankings_three. cbn -[INR]. unfold normalize, reason_for, Rmax, Rmin. cbn -[INR].
  rdec.
  repeat match goal with
         | |- cons _ _ = cons _ _ => f_equal
         | |- mkAllocationResult _ _ _ _ _ _ _ = mkAllocationResult _ _ _ _ _ _ _ => f_equal
         end; try reflexivity; lra.
Qed.

(** C2 (amended): on the spec's example (scores [0.6; 0.3; 0.0], the third
    strategy with 2 closed trades, below the threshold of 5, total capital
    200), the third strategy is qualified despite its score of 0 (row 3,
    reason "insufficient_history", the 10% floor [20/3]); the first row is
    capped at 50% of the capital, so the allocations are [100; 200/3; 20/3]
    and sum to [520/3 < 200]: no renormalization takes place. *)
Theorem rankings_three_example :
  let results := calculate_allocations_ranked 5 200 ports_three rankings_three in
  map ar_strategy_name results = ["momentum"; "mean_reversion"; "market_making"] /\
  map new_allocation results = [100; 200 / 3; 20 / 3] /\
  map reason results = ["high_performer"; "moderate_performer"; "insufficient_history"] /\
  rsum (map new_allocation results) = 520 / 3 /\
  rsum (map new_allocation results) < 200.
Proof.
  cbv zeta. rewrite rankings_three_allocations. simpl.
  split; [reflexivity |]. split; [reflexivity |]. split; [reflexivity |].
  split; [field | lra].
Qed.

(** C2 (as stated) fails: the allocations of the example do not sum to 200. *)
Lemma rankings_three_sum_not_200 :
  rsum (map new_allocation (calculate_allocations_ranked 5 200 ports_three rankings_three))
  <> 200.
Proof. rewrite rankings_three_allocations. simpl. lra. Qed.

(** * Ledger: dict lemmas *)

Lemma alookup_aset {K V} (keq : forall x y : K, {x = y} + {x <> y}) (k k' : K) (v : V) l :
  alookup keq k (aset keq k' v l) = if keq k k' then Some v else alookup keq k l.
Proof.
  induction l as [|[k0 v0] l IH]; simpl.
  - reflexivity.
  - destruct (keq k' k0) as [<- | Hne]; simpl.
    + destruct (keq k k'); reflexivity.
    + destruct (keq k k0) as [-> | Hne0].
      * destruct (keq k0 k') as [-> | _]; [contradiction | reflexivity].
      * rewrite IH. reflexivity.
Qed.

Lemma Int_part_IZR (z : Z) : Int_part (IZR z) = z.
Proof.
  unfold Int_part. rewrite <- (tech_up (IZR z) (z + 1)).
  - lia.
  - rewrite plus_IZR. lra.
  - rewrite plus_IZR. lra.
Qed.

Lemma Int_part_nonneg (r : R) : 0 <= r -> (0 <= Int_part r)%Z.
Proof.
  intros H. destruct (base_Int_part r) as [_ H2].
  assert (IZR (-1) < IZR (Int_part r)) by (simpl; lra).
  apply lt_IZR in H0. lia.
Qed.

(** * C4: quantity and cost of an opened position *)

(** C4: whenever [execute_signal] opens a position, with [eff] the market
    price for side "yes" and [1 - price] otherwise: the quantity is
    [floor(size / eff)] (the [Int_part]), it is at least 1, the entry price
    is [eff] and the entry cost is exactly [quantity * eff]. *)
Theorem execute_signal_quantity (rc : RiskConfig) (s : PaperTrader) (sg : Signal)
    (market_price : R) (now : Z) (pos : PaperPosition) (s' : PaperTrader) :
  execute_signal rc s sg market_price now = (Opened pos, s') ->
  let eff := if string_dec (sig_side sg) "yes" then market_price else 1 - market_price in
  quantity pos = Int_part (sig_size sg / eff) /\
  IZR (quantity pos) <= sig_size sg / eff < IZR (quantity pos) + 1 /\
  (1 <= quantity pos)%Z /\
  entry_price pos = eff /\
  entry_cost pos = IZR (quantity pos) * eff.
Proof.
  intros E. cbv zeta. unfold execute_signal in E.
  set (eff := if string_dec (sig_side sg) "yes" then market_price else 1 - market_price)
    in *.
  destruct (alookup string_dec (sig_strategy_name sg) (portfolios s)) as [pf|];
    [| discriminate].
  destruct (check_risk_limits rc s sg pf); [discriminate |].
  destruct (Rgt_dec eff 0) as [Hpos | Hnpos].
  2: { simpl in E. discriminate. }
  unfold py_int in E.
  destruct (Rle_dec 0 (sig_size sg / eff)) as [Hx | Hx].
  - destruct (Z.leb (Int_part (sig_size sg / eff)) 0) eqn:Hq; [discriminate |].
    inversion E; subst; simpl. apply Z.leb_gt in Hq.
    destruct (base_Int_part (sig_size sg / eff)) as [H1 H2].
    repeat split; try lra; lia.
  - pose proof (Int_part_nonneg (- (sig_size sg / eff)) ltac:(lra)).
    destruct (Z.leb (- Int_part (- (sig_size sg / eff))) 0) eqn:Hq; [discriminate |].
    apply Z.leb_gt in Hq. lia.
Qed.

(** * Concrete ledger states *)

Definition risk_config0 : RiskConfig := mkRiskConfig 200 10 20 10 0.2.

Definition signal_yes_5 : Signal := mkSignal "KXTEST" "yes" 5 "momentum" [].

Definition trader_100 : PaperTrader :=
  mkTrader [("momentum", mkPortfolio "momentum" 100 100 [] [])] 0 0.

Definition position_25 : PaperPosition :=
  mkPosition 0 "momentum" "KXTEST" "KXTEST" "yes" 25 0.2 0 (IZR 25 * 0.2)
    None None None OPEN [].

Definition trader_100_after : PaperTrader :=
  mkTrader [("momentum", mkPortfolio "momentum" 100 100 [(0%nat, position_25)] [])] 0 1.

Lemma py_int_5_02 : py_int (5 / 0.2) = 25%Z.
Proof.
  replace (5 / 0.2) with (IZR 25) by (replace 0.2 with (1 / 5) by lra; simpl; field).
  unfold py_int. rdec. apply Int_part_IZR.
Qed.

(** The spec's example: size 5, yes price 0.20, side "yes" *)
Lemma execute_signal_yes_5 :
  execute_signal risk_config0 trader_100 signal_yes_5 0.2 0 = (Opened position_25, trader_100_after).
Proof.
  unfold execute_signal, check_risk_limits, available_capital, total_exposure. simpl.
  rdec. rewrite py_int_5_02. simpl. reflexivity.
Qed.

(** Witness of C4 at the spec's example *)
Lemma execute_signal_quantity_witness :
  execute_signal risk_config0 trader_100 signal_yes_5 0.2 0
  = (Opened position_25, trader_100_after) /\
  quantity position_25 = Int_part (5 / 0.2) /\ entry_cost position_25 = IZR 25 * 0.2.
Proof.
  split; [exact execute_signal_yes_5 |].
  destruct (execute_signal_quantity risk_config0 trader_100 signal_yes_5 0.2 0
              position_25 trader_100_after execute_signal_yes_5) as [Hq [_ [_ [_ Hc]]]].
  simpl in Hq, Hc. split; [exact Hq | exact Hc].
Defined.

(** * C7: what [execute_signal] changes *)

Lemma execute_signal_shape (rc : RiskConfig) (s : PaperTrader) (sg : Signal)
    (market_price : R) (now : Z) (res : ExecResult) (s' : PaperTrader) :
  execute_signal rc s sg market_price now = (res, s') ->
  (exists r, res = Rejected r /\ s' = s) \/
  (exists pf pos, res = Opened pos /\
     alookup string_dec (sig_strategy_name sg) (portfolios s) = Some pf /\
     pos_id pos = next_uuid s /\ status pos = OPEN /\
     s' = mkTrader
       (aset string_dec (sig_strategy_name sg)
          (mkPortfolio (pf_strategy_name pf) (initial_capital pf) (current_capital pf)
             (aset Nat.eq_dec (pos_id pos) pos (positions pf)) (closed_positions pf))
          (portfolios s))
       (daily_pnl s) (S (next_uuid s))).
Proof.
  intros E. unfold execute_signal in E.
  destruct (alookup string_dec (sig_strategy_name sg) (portfolios s)) as [pf|] eqn:Hl.
  2: { inversion E; subst. left. eauto. }
  destruct (check_risk_limits rc s sg pf).
  { inversion E; subst. left. eauto. }
  cbv zeta in E.
  match type of E with
  | (if Z.leb ?q 0 then _ else _) = _ => destruct (Z.leb q 0)
  end.
  - inversion E; subst. left. eauto.
  - inversion E; subst. right. do 2 eexists. split; [reflexivity |].
    split; [reflexivity |]. split; [reflexivity |]. split; reflexivity.
Qed.

(** C7: [execute_signal] never changes a portfolio's [current_capital].  A
    rejected call (any reason) leaves the whole trader state unchanged; an
    accepted one only inserts the new position (under a fresh id) into the
    open-position map of the signal's portfolio and draws the next id; and a
    signal whose size exceeds the portfolio's available capital is rejected
    for insufficient capital with the state unchanged. *)
Theorem execute_signal_frame (rc : RiskConfig) (s : PaperTrader) (sg : Signal)
    (market_price : R) (now : Z) (res : ExecResult) (s' : PaperTrader) :
  execute_signal rc s sg market_price now = (res, s') ->
  (forall r, res = Rejected r -> s' = s) /\
  (forall pos, res = Opened pos ->
     exists pf,
       alookup string_dec (sig_strategy_name sg) (portfolios s) = Some pf /\
       pos_id pos = next_uuid s /\
       s' = mkTrader
              (aset string_dec (sig_strategy_name sg)
                 (mkPortfolio (pf_strategy_name pf) (initial_capital pf)
                    (current_capital pf) (aset Nat.eq_dec (pos_id pos) pos (positions pf))
                    (closed_positions pf))
                 (portfolios s))
              (daily_pnl s) (S (next_uuid s))) /\
  (forall name,
     option_map current_capital (alookup string_dec name (portfolios s'))
     = option_map current_capital (alookup string_dec name (portfolios s))) /\
  (forall pf, alookup string_dec (sig_strategy_name sg) (portfolios s) = Some pf ->
     sig_size sg > available_capital pf ->
     res = Rejected InsufficientCapital /\ s' = s).
Proof.
  intros E.
  pose proof (execute_signal_shape rc s sg market_price now res s' E) as Hshape.
  split; [| split; [| split]].
  - intros r ->. destruct Hshape as [[r' [_ Hs]] | [pf [pos [Hr _]]]];
      [exact Hs | discriminate].
  - intros pos ->. destruct Hshape as [[r' [Hr _]] | [pf [pos' [Hr [Hl [Hid [_ Hs]]]]]]];
      [discriminate |].
    inversion Hr; subst. exists pf. auto.
  - intros name. destruct Hshape as [[r' [_ ->]] | [pf [pos [_ [Hl [_ [_ ->]]]]]]];
      [reflexivity |].
    simpl. rewrite alookup_aset.
    destruct (string_dec name (sig_strategy_name sg)) as [-> | _];
      [rewrite Hl | ]; reflexivity.
  - intros pf Hl Hgt. unfold execute_signal in E. rewrite Hl in E.
    unfold check_risk_limits in E.
    destruct (Rgt_dec (sig_size sg) (available_capital pf)) as [_ | Hn]; [| contradiction].
    inversion E; subst. auto.
Qed.

(** The spec's example: size 5 against an available capital of 3 *)
Definition trader_3 : PaperTrader :=
  mkTrader [("momentum", mkPortfolio "momentum" 3 3 [] [])] 0 0.

Lemma execute_signal_insufficient :
  execute_signal risk_config0 trader_3 signal_yes_5 0.2 0
  = (Rejected InsufficientCapital, trader_3).
Proof.
  unfold execute_signal, check_risk_limits, available_capital, total_exposure. simpl.
  rdec.
Qed.

(** Witness of C7 at the spec's example *)
Lemma execute_signal_frame_witness :
  execute_signal risk_config0 trader_3 signal_yes_5 0.2 0
  = (Rejected InsufficientCapital, trader_3) /\
  alookup string_dec "momentum" (portfolios trader_3)
  = Some (mkPortfolio "momentum" 3 3 [] []) /\
  sig_size signal_yes_5 > available_capital (mkPortfolio "momentum" 3 3 [] []) /\
  (Rejected InsufficientCapital = Rejected InsufficientCapital /\ trader_3 = trader_3).
Proof.
  split; [exact execute_signal_insufficient |].
  split; [reflexivity |].
  assert (Hgt : sig_size signal_yes_5 > available_capital (mkPortfolio "momentum" 3 3 [] []))
    by (unfold available_capital, total_exposure; simpl; lra).
  split; [exact Hgt |].
  exact (proj2 (proj2 (proj2 (execute_signal_frame risk_config0 trader_3 signal_yes_5 0.2 0
         (Rejected InsufficientCapital) trader_3 execute_signal_insufficient)))
         (mkPortfolio "momentum" 3 3 [] []) eq_refl Hgt).
Defined.

(** * C8: the Sharpe ratio *)

Lemma calculate_metrics_sharpe (hist : list R) (pf : StrategyPortfolio) :
  initial_capital pf <> 0 ->
  option_map sharpe_ratio (calculate_metrics hist pf)
  = Some (calculate_sharpe (closed_positions pf) (initial_capital pf) 0.05).
Proof.
  intros Hic. unfold calculate_metrics.
  destruct (closed_positions pf) as [|t ts]; [reflexivity |].
  destruct (Req_EM_T (initial_capital pf) 0); [contradiction | reflexivity].
Qed.

(** C8: for a portfolio whose [calculate_metrics] returns (initial capital
    non-zero), with per-trade returns [r_i = pnl_i / initial_capital], mean
    [mu], population standard deviation [sigma]: with at least 2 closed trades
    and [sigma > 0] the Sharpe ratio is [(mu*2500 - 0.05) / (sigma*sqrt 2500)];
    with fewer than 2 trades or [sigma = 0] it is 0. *)
Theorem calculate_metrics_sharpe_spec (hist : list R) (pf : StrategyPortfolio) :
  initial_capital pf <> 0 ->
  let rs := returns_of (closed_positions pf) (initial_capital pf) in
  ((2 <= List.length (closed_positions pf))%nat -> pop_std rs > 0 ->
   option_map sharpe_ratio (calculate_metrics hist pf)
   = Some ((mean rs * 2500 - 0.05) / (pop_std rs * sqrt 2500))) /\
  ((List.length (closed_positions pf) < 2)%nat \/ pop_std rs = 0 ->
   option_map sharpe_ratio (calculate_metrics hist pf) = Some 0).
Proof.
  intros Hic rs. rewrite (calculate_metrics_sharpe hist pf Hic).
  unfold calculate_sharpe, pop_std, mean. fold rs.
  assert (Hlen : List.length rs = List.length (closed_positions pf))
    by (unfold rs, returns_of; apply length_map).
  set (v := rsum (map (fun r => (r - rsum rs / INR (List.length rs)) ^ 2) rs)
            / INR (List.length rs)).
  assert (Hstd : (if Rgt_dec v 0 then sqrt v else 0) = sqrt v).
  { destruct (Rgt_dec v 0); [reflexivity | rewrite sqrt_neg_0; [reflexivity | lra]]. }
  rewrite Hstd. unfold trades_per_year. split.
  - intros H2 Hs.
    destruct (Nat.ltb (List.length (closed_positions pf)) 2) eqn:Hl.
    { apply Nat.ltb_lt in Hl. lia. }
    destruct (Req_EM_T (sqrt v) 0); [lra | reflexivity].
  - intros [H2 | Hs].
    + apply Nat.ltb_lt in H2. rewrite H2. reflexivity.
    + destruct (Nat.ltb (List.length (closed_positions pf)) 2); [reflexivity |].
      destruct (Req_EM_T (sqrt v) 0); [reflexivity | contradiction].
Qed.

(** Two closed trades, [+10] and [-4], on an initial capital of 100 *)
Definition closed_trade (id : nat) (cost value : R) (t0 t1 : Z) : PaperPosition :=
  mkPosition id "momentum" "KXTEST" "KXTEST" "yes" 10 (cost / 10) t0 cost
    (Some (value / 10)) (Some t1) (Some value) CLOSED [("close_reason", "signal")].

Definition portfolio_two_trades : StrategyPortfolio :=
  mkPortfolio "momentum" 100 106 [] [closed_trade 0 5 15 0 3600; closed_trade 1 6 2 3600 7200].

(** Witness of C8 *)
Lemma calculate_metrics_sharpe_spec_witness :
  initial_capital portfolio_two_trades <> 0 /\
  (2 <= List.length (closed_positions portfolio_two_trades))%nat /\
  option_map sharpe_ratio (calculate_metrics [] portfolio_two_trades)
  = Some ((mean (returns_of (closed_positions portfolio_two_trades) 100) * 2500 - 0.05)
          / (pop_std (returns_of (closed_positions portfolio_two_trades) 100) * sqrt 2500)).
Proof.
  assert (Hic : initial_capital portfolio_two_trades <> 0) by (simpl; lra).
  split; [exact Hic |]. split; [simpl; lia |].
  apply (proj1 (calculate_metrics_sharpe_spec [] portfolio_two_trades Hic)).
  - simpl; lia.
  - unfold pop_std, mean, returns_of, pnl. simpl. apply sqrt_lt_R0. lra.
Defined.

(** * C1: the infinite profit factor and Sortino ratio *)

Lemma rsum_nonpos (l : list R) :
  Forall (fun x => x <= 0) l -> rsum l <= 0 /\ (rsum l < 0 <-> Exists (fun x => x < 0) l).
Proof.
  induction l as [|x l IH]; intros Hf; simpl.
  - split; [lra |]. split; [lra | intros H; inversion H].
  - inversion Hf as [|? ? Hx Hl]; subst. destruct (IH Hl) as [Hle Hiff].
    split; [lra |]. split.
    + intros Hs. destruct (Rlt_dec x 0) as [Hx0 | Hx0].
      * apply Exists_cons_hd. exact Hx0.
      * apply Exists_cons_tl. apply Hiff. lra.
    + intros He. inversion He; subst; [lra |].
      assert (rsum l < 0) by (apply Hiff; assumption). lra.
Qed.

Lemma gross_loss_pos_iff (trades : list PaperPosition) :
  (match filter is_loss trades with
   | [] => 0 | _ => Rabs (rsum (map pnl (filter is_loss trades))) end) > 0
  <-> Exists (fun t => pnl t < 0) trades.
Proof.
  assert (Hf : Forall (fun x => x <= 0) (map pnl (filter is_loss trades))).
  { apply Forall_forall. intros x Hx. apply in_map_iff in Hx.
    destruct Hx as [t [<- Ht]]. apply filter_In in Ht. destruct Ht as [_ Ht].
    unfold is_loss in Ht. destruct (Rle_dec (pnl t) 0); [assumption | discriminate]. }
  destruct (rsum_nonpos _ Hf) as [Hle Hiff].
  assert (Hex : Exists (fun x => x < 0) (map pnl (filter is_loss trades))
                <-> Exists (fun t => pnl t < 0) trades).
  { rewrite !Exists_exists. split.
    - intros [x [Hx Hneg]]. apply in_map_iff in Hx. destruct Hx as [t [<- Ht]].
      apply filter_In in Ht. exists t. tauto.
    - intros [t [Ht Hneg]]. exists (pnl t). split; [| exact Hneg].
      apply in_map. apply filter_In. split; [exact Ht |].
      unfold is_loss. destruct (Rle_dec (pnl t) 0); [reflexivity | lra]. }
  destruct (filter is_loss trades) as [|t0 ts] eqn:Ef.
  - simpl in Hex. split; [lra |]. intros H. apply Hex in H. inversion H.
  - rewrite <- Hex, <- Hiff. rewrite Rabs_left1 by exact Hle. lra.
Qed.

Lemma filter_is_negative_nil (rs : list R) :
  filter is_negative rs = [] <-> Forall (fun r => ~ r < 0) rs.
Proof.
  induction rs as [|r rs IH]; simpl.
  - split; [constructor | reflexivity].
  - unfold is_negative at 1. destruct (Rlt_dec r 0) as [Hr | Hr].
    + split; [discriminate | intros H; inversion H; contradiction].
    + rewrite IH. split; [intros H; constructor; assumption |
                          intros H; inversion H; assumption].
Qed.

Lemma calculate_sortino_inf_iff (trades : list PaperPosition) (ic rf : R) :
  calculate_sortino trades ic rf = PInf
  <-> (2 <= List.length trades)%nat /\ Forall (fun r => ~ r < 0) (returns_of trades ic).
Proof.
  unfold calculate_sortino.
  destruct (Nat.ltb (List.length trades) 2) eqn:Hl.
  - apply Nat.ltb_lt in Hl. split; [discriminate | intros [H _]; lia].
  - apply Nat.ltb_ge in Hl. rewrite <- filter_is_negative_nil.
    destruct (filter is_negative (returns_of trades ic)) as [|r rs].
    + tauto.
    + cbv zeta. split; [| intros [_ H]; discriminate].
      destruct (Req_EM_T _ 0); discriminate.
Qed.

(** C1 (amended): for a portfolio with at least one closed trade whose
    [calculate_metrics] returns (initial capital non-zero), the profit factor
    is [+inf] iff no closed trade has a negative pnl (trades with pnl 0 are
    counted as losing trades but add no gross loss), and the Sortino ratio is
    [+inf] iff there are at least 2 closed trades and no per-trade return
    [pnl / initial_capital] is negative. *)
Theorem calculate_metrics_infinite_ratios (hist : list R) (pf : StrategyPortfolio) :
  closed_positions pf <> [] -> initial_capital pf <> 0 ->
  exists m, calculate_metrics hist pf = Some m /\
    (profit_factor m = PInf <-> Forall (fun t => 0 <= pnl t) (closed_positions pf)) /\
    (sortino_ratio m = PInf <->
       (2 <= List.length (closed_positions pf))%nat /\
       Forall (fun r => ~ r < 0) (returns_of (closed_positions pf) (initial_capital pf))).
Proof.
  intros Hne Hic. unfold calculate_metrics.
  pose proof (gross_loss_pos_iff (closed_positions pf)) as Hgl.
  pose proof (calculate_sortino_inf_iff (closed_positions pf) (initial_capital pf) 0.05)
    as Hso.
  destruct (closed_positions pf) as [|t ts]; [contradiction |].
  destruct (Req_EM_T (initial_capital pf) 0); [contradiction |].
  eexists. split; [reflexivity |]. simpl profit_factor. simpl sortino_ratio.
  split; [| exact Hso].
  destruct (Rgt_dec _ 0) as [Hg | Hg].
  - split; [discriminate |]. intros Hall. apply Hgl in Hg.
    rewrite Exists_exists in Hg. destruct Hg as [u [Hu Hneg]].
    rewrite Forall_forall in Hall. specialize (Hall u Hu). lra.
  - split; [intros _ | reflexivity].
    apply Forall_forall. intros u Hu. destruct (Rle_dec 0 (pnl u)) as [H | H];
      [exact H |].
    exfalso. apply Hg. apply Hgl. apply Exists_exists. exists u. split; [exact Hu | lra].
Qed.

(** Witness of C1 *)
Lemma calculate_metrics_infinite_ratios_witness :
  closed_positions portfolio_two_trades <> [] /\ initial_capital portfolio_two_trades <> 0 /\
  exists m, calculate_metrics [] portfolio_two_trades = Some m /\
    (profit_factor m = PInf <->
       Forall (fun t => 0 <= pnl t) (closed_positions portfolio_two_trades)).
Proof.
  assert (Hne : closed_positions portfolio_two_trades <> []) by discriminate.
  assert (Hic : initial_capital portfolio_two_trades <> 0) by (simpl; lra).
  split; [exact Hne |]. split; [exact Hic |].
  destruct (calculate_metrics_infinite_ratios [] portfolio_two_trades Hne Hic)
    as [m [Hm [Hpf _]]].
  exists m. split; [exact Hm | exact Hpf].
Defined.

(** One closed trade that broke even: exit value = entry cost = 5 *)
Definition portfolio_breakeven : StrategyPortfolio :=
  mkPortfolio "momentum" 100 100 [] [closed_trade 0 5 5 0 3600].

(** C1 (as stated) fails: a single break-even trade gives an infinite profit
    factor with no winning trade and one losing trade. *)
Lemma calculate_metrics_breakeven_infinite :
  exists m, calculate_metrics [] portfolio_breakeven = Some m /\
    profit_factor m = PInf /\ winning_trades m = 0%nat /\ losing_trades m = 1%nat.
Proof.
  unfold calculate_metrics, portfolio_breakeven. simpl closed_positions.
  cbv zeta. destruct (Req_EM_T (initial_capital _) 0) as [H | _]; [simpl in H; lra |].
  eexists. split; [reflexivity |]. simpl profit_factor. simpl winning_trades.
  simpl losing_trades. unfold is_win, is_loss, pnl, Rabs. simpl. rdec; repeat split.
Qed.

(** * Ledger invariants *)

From Stdlib Require Import Permutation.
Open Scope list_scope.

Section AlistFacts.
Context {K V : Type} (keq : forall x y : K, {x = y} + {x <> y}).

Lemma alookup_split (k : K) (v : V) (l : list (K * V)) :
  alookup keq k l = Some v ->
  exists l1 l2, l = l1 ++ (k, v) :: l2 /\ ~ In k (map fst l1) /\
    adel keq k l = l1 ++ l2 /\
    (forall v', aset keq k v' l = l1 ++ (k, v') :: l2).
Proof.
  induction l as [|[k0 v0] l IH]; simpl; [discriminate |].
  destruct (keq k k0) as [<- | Hne].
  - intros E. inversion E; subst. exists [], l. simpl. repeat split; auto.
  - intros E. destruct (IH E) as [l1 [l2 [-> [Hn [Hd Hs]]]]].
    exists ((k0, v0) :: l1), l2. simpl. repeat split.
    + intros [H | H]; [congruence | contradiction].
    + rewrite Hd. reflexivity.
    + intros v'. rewrite Hs. reflexivity.
Qed.

Lemma alookup_none (k : K) (l : list (K * V)) :
  alookup keq k l = None <-> ~ In k (map fst l).
Proof.
  induction l as [|[k0 v0] l IH]; simpl; [tauto |].
  destruct (keq k k0) as [<- | Hne].
  - split; [discriminate | intros H; exfalso; apply H; left; reflexivity].
  - rewrite IH. split; [intros H [H' | H']; [congruence | contradiction] | tauto].
Qed.

Lemma aset_absent (k : K) (v : V) (l : list (K * V)) :
  alookup keq k l = None -> aset keq k v l = l ++ [(k, v)].
Proof.
  induction l as [|[k0 v0] l IH]; simpl; [reflexivity |].
  destruct (keq k k0); [discriminate | intros E; rewrite IH by exact E; reflexivity].
Qed.

Lemma alookup_in (k : K) (v : V) (l : list (K * V)) :
  alookup keq k l = Some v -> In (k, v) l.
Proof.
  intros E. destruct (alookup_split k v l E) as [l1 [l2 [-> _]]].
  apply in_or_app. right. left. reflexivity.
Qed.

Lemma nodup_fst_in (k : K) (v v' : V) (l : list (K * V)) :
  NoDup (map fst l) -> In (k, v) l -> In (k, v') l -> v = v'.
Proof.
  induction l as [|[k0 v0] l IH]; simpl; [tauto |].
  intros Hnd. inversion Hnd as [|? ? Hn Hnd']; subst.
  intros [E | H] [E' | H'].
  - inversion E; inversion E'; congruence.
  - inversion E; subst. exfalso. apply Hn. apply (in_map fst _ _ H').
  - inversion E'; subst. exfalso. apply Hn. apply (in_map fst _ _ H).
  - exact (IH Hnd' H H').
Qed.

Lemma in_nodup_lookup (k : K) (v : V) (l : list (K * V)) :
  NoDup (map fst l) -> In (k, v) l -> alookup keq k l = Some v.
Proof.
  intros Hnd Hin. destruct (alookup keq k l) as [v'|] eqn:E.
  - f_equal. apply (nodup_fst_in k v' v l Hnd (alookup_in k v' l E) Hin).
  - apply alookup_none in E. exfalso. apply E. apply (in_map fst _ _ Hin).
Qed.
End AlistFacts.

Definition open_entries (s : PaperTrader) : list (nat * PaperPosition) :=
  flat_map (fun kp => positions (snd kp)) (portfolios s).

Definition closed_all (s : PaperTrader) : list PaperPosition :=
  flat_map (fun kp => closed_positions (snd kp)) (portfolios s).

(** The ledger invariant: open ids are globally unique and below the id
    supply, each open entry is keyed by its own id and is OPEN, and every
    closed position's id is below the supply and no longer open. *)
Definition WF (s : PaperTrader) : Prop :=
  NoDup (map fst (open_entries s)) /\
  (forall k p, In (k, p) (open_entries s) ->
     pos_id p = k /\ status p = OPEN /\ (k < next_uuid s)%nat) /\
  (forall c, In c (closed_all s) ->
     (pos_id c < next_uuid s)%nat /\ ~ In (pos_id c) (map fst (open_entries s))).

Lemma flat_map_mid {A B} (f : A -> list B) (l1 : list A) (x : A) (l2 : list A) :
  flat_map f (l1 ++ x :: l2) = flat_map f l1 ++ f x ++ flat_map f l2.
Proof. rewrite flat_map_app. reflexivity. Qed.

Lemma perm_mid_app {A} (F1 P1 P2 F2 : list A) (x : A) :
  Permutation (F1 ++ (P1 ++ x :: P2) ++ F2) (x :: F1 ++ (P1 ++ P2) ++ F2).
Proof.
  apply Permutation_sym.
  replace (F1 ++ (P1 ++ x :: P2) ++ F2) with ((F1 ++ P1) ++ x :: (P2 ++ F2))
    by (rewrite <- !app_assoc; reflexivity).
  replace (F1 ++ (P1 ++ P2) ++ F2) with ((F1 ++ P1) ++ (P2 ++ F2))
    by (rewrite <- !app_assoc; reflexivity).
  apply Permutation_middle.
Qed.

Lemma nodup_drop_mid {A} (F1 P F2 : list A) :
  NoDup (F1 ++ P ++ F2) -> NoDup (F1 ++ F2).
Proof.
  induction P as [|x P IH]; simpl; [tauto |].
  intros H. apply IH. apply (NoDup_remove_1 F1 (P ++ F2) x H).
Qed.

Lemma close_in_some (id : nat) (x : R) (reason : string) (now : Z)
    (ps ps' : list (string * StrategyPortfolio)) (r : PaperPosition) :
  close_in id x reason now ps = Some (ps', r) ->
  exists l1 k pf l2 pos P1 P2,
    ps = l1 ++ (k, pf) :: l2 /\ positions pf = P1 ++ (id, pos) :: P2 /\
    r = mark_closed x reason now pos /\
    ps' = l1 ++ (k, mkPortfolio (pf_strategy_name pf) (initial_capital pf)
                      (current_capital pf + pnl r) (P1 ++ P2)
                      (closed_positions pf ++ [r])) :: l2.
Proof.
  revert ps'. induction ps as [|[k pf] ps IH]; intros ps' E; simpl in E; [discriminate |].
  destruct (alookup Nat.eq_dec id (positions pf)) as [pos|] eqn:Hl.
  - destruct (alookup_split Nat.eq_dec id pos (positions pf) Hl)
      as [P1 [P2 [HP [_ [Hd _]]]]].
    inversion E; subst. exists [], k, pf, ps, pos, P1, P2.
    simpl. repeat split; try assumption. rewrite Hd. reflexivity.
  - destruct (close_in id x reason now ps) as [[rest' r']|] eqn:Ec; [| discriminate].
    inversion E; subst.
    destruct (IH rest' eq_refl) as [l1 [k' [pf' [l2 [pos [P1 [P2 [H1 [H2 [H3 H4]]]]]]]]]].
    exists ((k, pf) :: l1), k', pf', l2, pos, P1, P2. subst. simpl.
    repeat split; reflexivity || assumption.
Qed.

Lemma close_in_none (id : nat) (x : R) (reason : string) (now : Z)
    (ps : list (string * StrategyPortfolio)) :
  close_in id x reason now ps = None <->
  ~ In id (map fst (flat_map (fun kp => positions (snd kp)) ps)).
Proof.
  induction ps as [|[k pf] ps IH]; simpl; [tauto |].
  rewrite map_app.
  destruct (alookup Nat.eq_dec id (positions pf)) as [pos|] eqn:Hl.
  - split; [discriminate |]. intros H. exfalso. apply H. apply in_or_app. left.
    apply (in_map fst _ _ (alookup_in Nat.eq_dec id pos _ Hl)).
  - apply alookup_none in Hl.
    destruct (close_in id x reason now ps) as [[rest' r']|].
    + split; [discriminate |]. intros H. exfalso. apply H. apply in_or_app. right.
      destruct (in_dec Nat.eq_dec id (map fst (flat_map (fun kp => positions (snd kp)) ps)))
        as [Hin | Hn]; [exact Hin | apply IH in Hn; discriminate].
    + split; [| reflexivity]. intros _ Hin. apply in_app_or in Hin.
      destruct Hin as [Hin | Hin]; [contradiction |]. apply IH in Hin; [exact Hin |].
      reflexivity.
Qed.

Lemma WF_shrink (s s' : PaperTrader) :
  WF s -> NoDup (map fst (open_entries s')) ->
  incl (open_entries s') (open_entries s) -> incl (closed_all s') (closed_all s) ->
  next_uuid s' = next_uuid s -> WF s'.
Proof.
  intros [Hnd [Hop Hcl]] Hnd' Hio Hic Hn. rewrite <- Hn in *.
  split; [exact Hnd' |]. split.
  - intros k p Hin. apply (Hop k p (Hio _ Hin)).
  - intros c Hin. destruct (Hcl c (Hic c Hin)) as [Hlt Hno]. split; [exact Hlt |].
    intros Hk. apply Hno. apply in_map_iff in Hk. destruct Hk as [[k p] [Hk Hkp]].
    simpl in Hk; subst. apply (in_map fst _ _ (Hio _ Hkp)).
Qed.

Lemma WF_empty : WF empty_trader.
Proof.
  unfold WF, open_entries, closed_all. simpl. split; [constructor |].
  split; intros; contradiction.
Qed.

Lemma WF_initialize (s : PaperTrader) (name : string) (cap : R) :
  WF s -> WF (initialize_portfolio s name cap).
Proof.
  intros Hwf. apply (WF_shrink s); [exact Hwf | | | | reflexivity];
    unfold initialize_portfolio, open_entries, closed_all; simpl;
    destruct Hwf as [Hnd _]; unfold open_entries in Hnd;
    destruct (alookup string_dec name (portfolios s)) as [v0|] eqn:Hl.
  - destruct (alookup_split string_dec name v0 _ Hl) as [l1 [l2 [E [_ [_ Hs]]]]].
    rewrite Hs. rewrite E in Hnd. rewrite !flat_map_mid, !map_app in *. simpl in *.
    apply (nodup_drop_mid _ _ _ Hnd).
  - rewrite aset_absent by exact Hl. rewrite flat_map_app, map_app. simpl.
    rewrite app_nil_r. exact Hnd.
  - destruct (alookup_split string_dec name v0 _ Hl) as [l1 [l2 [E [_ [_ Hs]]]]].
    rewrite Hs, E, !flat_map_mid. simpl. intros x Hx.
    apply in_app_or in Hx. apply in_or_app. destruct Hx; [left; assumption |].
    right. apply in_or_app. right. assumption.
  - rewrite aset_absent by exact Hl. rewrite flat_map_app. simpl. rewrite app_nil_r.
    apply incl_refl.
  - destruct (alookup_split string_dec name v0 _ Hl) as [l1 [l2 [E [_ [_ Hs]]]]].
    rewrite Hs, E, !flat_map_mid. simpl. intros x Hx.
    apply in_app_or in Hx. apply in_or_app. destruct Hx; [left; assumption |].
    right. apply in_or_app. right. assumption.
  - rewrite aset_absent by exact Hl. rewrite flat_map_app. simpl. rewrite app_nil_r.
    apply incl_refl.
Qed.

Lemma WF_reset (s : PaperTrader) : WF s -> WF (reset_daily_stats s).
Proof. intros H. exact H. Qed.

Lemma WF_add (s s' : PaperTrader) (pos : PaperPosition) :
  WF s ->
  Permutation (open_entries s') ((pos_id pos, pos) :: open_entries s) ->
  closed_all s' = closed_all s -> next_uuid s' = S (next_uuid s) ->
  pos_id pos = next_uuid s -> status pos = OPEN -> WF s'.
Proof.
  intros [Hnd [Hop Hcl]] Hp Hc Hn Hid Hst.
  assert (Hfresh : ~ In (pos_id pos) (map fst (open_entries s))).
  { intros Hin. apply in_map_iff in Hin. destruct Hin as [[k p] [Hk Hkp]].
    simpl in Hk. subst k. destruct (Hop _ _ Hkp) as [_ [_ Hlt]]. lia. }
  split; [| split].
  - apply (Permutation_NoDup (Permutation_sym (Permutation_map fst Hp))).
    simpl. constructor; assumption.
  - intros k p Hin. apply (Permutation_in _ Hp) in Hin. destruct Hin as [E | Hin].
    + inversion E; subst. rewrite Hn. repeat split; auto; lia.
    + destruct (Hop _ _ Hin) as [H1 [H2 H3]]. rewrite Hn. repeat split; auto; lia.
  - intros c Hin. rewrite Hc in Hin. destruct (Hcl c Hin) as [Hlt Hno].
    rewrite Hn. split; [lia |]. intros Hk.
    apply (Permutation_in _ (Permutation_map fst Hp)) in Hk. destruct Hk as [Hk | Hk].
    + simpl in Hk. lia.
    + contradiction.
Qed.

Lemma WF_remove (s s' : PaperTrader) (id : nat) (pos r : PaperPosition) :
  WF s ->
  Permutation (open_entries s) ((id, pos) :: open_entries s') ->
  Permutation (closed_all s') (r :: closed_all s) ->
  pos_id r = id -> next_uuid s' = next_uuid s -> WF s'.
Proof.
  intros [Hnd [Hop Hcl]] Hp Hc Hid Hn.
  pose proof (Permutation_NoDup (Permutation_map fst Hp) Hnd) as Hnd'.
  simpl in Hnd'. apply NoDup_cons_iff in Hnd'. destruct Hnd' as [Hnot Hnd''].
  assert (Hsub : forall x, In x (open_entries s') -> In x (open_entries s)).
  { intros x Hx. apply (Permutation_in _ (Permutation_sym Hp)). right. exact Hx. }
  split; [exact Hnd'' |]. split.
  - intros k p Hin. rewrite Hn. apply (Hop k p (Hsub _ Hin)).
  - intros c Hin. rewrite Hn. apply (Permutation_in _ Hc) in Hin. destruct Hin as [<- | Hin].
    + rewrite Hid. split; [| exact Hnot].
      assert (Hin0 : In (id, pos) (open_entries s)).
      { apply (Permutation_in _ (Permutation_sym Hp)). left. reflexivity. }
      apply (Hop _ _ Hin0).
    + destruct (Hcl c Hin) as [Hlt Hno]. split; [exact Hlt |]. intros Hk. apply Hno.
      apply in_map_iff in Hk. destruct Hk as [x [Hx Hxin]]. rewrite <- Hx.
      apply (in_map fst _ _ (Hsub _ Hxin)).
Qed.

Lemma WF_execute (rc : RiskConfig) (s : PaperTrader) (sg : Signal) (mp : R) (now : Z) :
  WF s -> WF (snd (execute_signal rc s sg mp now)).
Proof.
  intros Hwf. destruct (execute_signal rc s sg mp now) as [res s'] eqn:E. simpl.
  destruct (execute_signal_shape rc s sg mp now res s' E)
    as [[r [_ ->]] | [pf [pos [_ [Hl [Hid [Hst ->]]]]]]]; [exact Hwf |].
  destruct (alookup_split string_dec _ pf _ Hl) as [l1 [l2 [Eps [_ [_ Hs]]]]].
  assert (Hnone : alookup Nat.eq_dec (pos_id pos) (positions pf) = None).
  { apply alookup_none. intros Hin. apply in_map_iff in Hin.
    destruct Hin as [[k p] [Hk Hkp]]. simpl in Hk. subst k.
    destruct Hwf as [_ [Hop _]].
    assert (In (pos_id pos, p) (open_entries s)).
    { unfold open_entries. rewrite Eps, flat_map_mid. apply in_or_app. right.
      apply in_or_app. left. exact Hkp. }
    destruct (Hop _ _ H) as [_ [_ Hlt]]. lia. }
  apply (WF_add s _ pos Hwf); simpl; [| | reflexivity | exact Hid | exact Hst].
  - unfold open_entries. simpl. rewrite Hs, Eps, !flat_map_mid. simpl.
    rewrite aset_absent by exact Hnone.
    pose proof (perm_mid_app (flat_map (fun kp => positions (snd kp)) l1) (positions pf) []
                  (flat_map (fun kp => positions (snd kp)) l2) (pos_id pos, pos)) as Hp.
    rewrite app_nil_r in Hp. exact Hp.
  - unfold closed_all. simpl. rewrite Hs, Eps, !flat_map_mid. reflexivity.
Qed.

Lemma WF_close (s : PaperTrader) (id : nat) (x : R) (reason : string) (now : Z) :
  WF s -> WF (snd (close_position s id x reason now)).
Proof.
  intros Hwf. unfold close_position.
  destruct (close_in id x reason now (portfolios s)) as [[ps' r]|] eqn:E; [| exact Hwf].
  simpl. destruct (close_in_some id x reason now _ _ _ E)
    as [l1 [k [pf [l2 [pos [P1 [P2 [Eps [HP [Hr Eps']]]]]]]]]].
  assert (Hin : In (id, pos) (open_entries s)).
  { unfold open_entries. rewrite Eps, flat_map_mid. simpl. rewrite HP.
    apply in_or_app. right. apply in_or_app. left. apply in_or_app. right. left.
    reflexivity. }
  pose proof Hwf as [_ [Hop _]].
  destruct (Hop _ _ Hin) as [Hid _].
  apply (WF_remove s _ id pos r Hwf); simpl.
  - unfold open_entries. simpl. rewrite Eps', Eps, !flat_map_mid. simpl. rewrite HP.
    apply perm_mid_app.
  - unfold closed_all. simpl. rewrite Eps', Eps, !flat_map_mid. simpl.
    pose proof (perm_mid_app (flat_map (fun kp => closed_positions (snd kp)) l1)
                  (closed_positions pf) [] (flat_map (fun kp => closed_positions (snd kp)) l2)
                  r) as Hp.
    rewrite app_nil_r in Hp. exact Hp.
  - rewrite Hr. unfold mark_closed. simpl. exact Hid.
  - reflexivity.
Qed.

Lemma close_position_some (s s1 : PaperTrader) (id : nat) (x : R) (reason : string)
    (now : Z) (r : PaperPosition) :
  close_position s id x reason now = (Some r, s1) ->
  exists pos, r = mark_closed x reason now pos /\
    Permutation (open_entries s) ((id, pos) :: open_entries s1) /\
    Permutation (closed_all s1) (r :: closed_all s) /\
    next_uuid s1 = next_uuid s /\ daily_pnl s1 = daily_pnl s + pnl r.
Proof.
  unfold close_position.
  destruct (close_in id x reason now (portfolios s)) as [[ps' r']|] eqn:E;
    [| discriminate].
  intros H. inversion H; subst r' s1. clear H.
  destruct (close_in_some id x reason now _ _ _ E)
    as [l1 [k [pf [l2 [pos [P1 [P2 [Eps [HP [Hr Eps']]]]]]]]]].
  exists pos. split; [exact Hr |]. split; [| split; [| split; reflexivity]].
  - unfold open_entries. simpl. rewrite Eps', Eps, !flat_map_mid. simpl. rewrite HP.
    apply perm_mid_app.
  - unfold closed_all. simpl. rewrite Eps', Eps, !flat_map_mid. simpl.
    pose proof (perm_mid_app (flat_map (fun kp => closed_positions (snd kp)) l1)
                  (closed_positions pf) [] (flat_map (fun kp => closed_positions (snd kp)) l2)
                  r) as Hp.
    rewrite app_nil_r in Hp. exact Hp.
Qed.

Lemma close_position_none (s : PaperTrader) (id : nat) (x : R) (reason : string) (now : Z) :
  ~ In id (map fst (open_entries s)) -> close_position s id x reason now = (None, s).
Proof.
  intros H. unfold close_position.
  apply (proj2 (close_in_none id x reason now (portfolios s))) in H.
  rewrite H. reflexivity.
Qed.

(** Under [WF], closing an open id closes exactly the entry stored under it *)
Lemma close_position_open (s : PaperTrader) (p : PaperPosition) (x : R)
    (reason : string) (now : Z) :
  WF s -> In (pos_id p, p) (open_entries s) ->
  exists s1, close_position s (pos_id p) x reason now = (Some (mark_closed x reason now p), s1) /\
    Permutation (open_entries s) ((pos_id p, p) :: open_entries s1) /\
    Permutation (closed_all s1) (mark_closed x reason now p :: closed_all s).
Proof.
  intros Hwf Hin.
  destruct (close_position s (pos_id p) x reason now) as [[r|] s1] eqn:E.
  - destruct (close_position_some _ _ _ _ _ _ _ E) as [pos [Hr [Hp [Hc _]]]].
    assert (Hpos : pos = p).
    { destruct Hwf as [Hnd _].
      apply (nodup_fst_in (pos_id p) pos p _ Hnd); [| exact Hin].
      apply (Permutation_in _ (Permutation_sym Hp)). left. reflexivity. }
    subst pos r. exists s1. split; [reflexivity |]. split; assumption.
  - exfalso. unfold close_position in E.
    destruct (close_in (pos_id p) x reason now (portfolios s)) as [[ps' r']|] eqn:Ec;
      [discriminate |].
    apply (proj1 (close_in_none _ _ _ _ _)) in Ec. apply Ec.
    apply (in_map fst _ _ Hin).
Qed.

Lemma WF_check_exits_loop (st : Strategy) (md : MarketData) (now : Z)
    (snapshot : list PaperPosition) (s : PaperTrader) :
  WF s -> WF (snd (check_exits_loop st md now snapshot s)).
Proof.
  revert s. induction snapshot as [|p rest IH]; intros s Hwf; simpl; [exact Hwf |].
  destruct (negb (ticker_matches md p)); [apply IH; exact Hwf |].
  destruct (should_exit st _ md); [| apply IH; exact Hwf].
  destruct (close_position s (pos_id p) _ "strategy_exit" now) as [res s1] eqn:E.
  assert (Hw1 : WF s1).
  { change s1 with (snd (res, s1)). rewrite <- E. apply WF_close. exact Hwf. }
  specialize (IH s1 Hw1).
  destruct (check_exits_loop st md now rest s1) as [closed s2].
  destruct res; exact IH.
Qed.

Lemma WF_check_exits (s : PaperTrader) (st : Strategy) (md : MarketData) (now : Z) :
  WF s -> WF (snd (check_exits s st md now)).
Proof.
  intros Hwf. unfold check_exits.
  destruct (alookup string_dec (st_name st) (portfolios s)); [| exact Hwf].
  apply WF_check_exits_loop. exact Hwf.
Qed.

Lemma reachable_WF (rc : RiskConfig) (s : PaperTrader) : reachable rc s -> WF s.
Proof.
  induction 1.
  - exact WF_empty.
  - apply WF_initialize. assumption.
  - apply WF_execute. assumption.
  - apply WF_close. assumption.
  - apply WF_check_exits. assumption.
  - apply WF_reset. assumption.
Qed.

Lemma filter_all_true {A} (f : A -> bool) (l : list A) :
  (forall x, In x l -> f x = true) -> filter f l = l.
Proof.
  induction l as [|a l IH]; intros H; simpl; [reflexivity |].
  rewrite (H a (or_introl eq_refl)). f_equal. apply IH. intros x Hx. apply H. right. exact Hx.
Qed.

Lemma in_open_entries (s : PaperTrader) (k : string) (pf : StrategyPortfolio)
    (e : nat * PaperPosition) :
  In (k, pf) (portfolios s) -> In e (positions pf) -> In e (open_entries s).
Proof.
  intros Hk He. unfold open_entries. apply in_flat_map. exists (k, pf). split; assumption.
Qed.

(** Under [WF] every entry of a portfolio's map is OPEN, so [open_positions]
    is the whole map *)
Lemma WF_open_positions (s : PaperTrader) (k : string) (pf : StrategyPortfolio) :
  WF s -> In (k, pf) (portfolios s) -> open_positions pf = map snd (positions pf).
Proof.
  intros [_ [Hop _]] Hk. unfold open_positions. apply filter_all_true.
  intros p Hp. apply in_map_iff in Hp. destruct Hp as [[id q] [Hq Hin]]. simpl in Hq. subst q.
  destruct (Hop id p (in_open_entries s k pf _ Hk Hin)) as [_ [-> _]]. reflexivity.
Qed.

Lemma trader_100_init : trader_100 = initialize_portfolio empty_trader "momentum" 100.
Proof. reflexivity. Qed.

Lemma reachable_trader_100_after : reachable risk_config0 trader_100_after.
Proof.
  change trader_100_after with (snd (Opened position_25, trader_100_after)).
  rewrite <- execute_signal_yes_5. apply reach_execute. rewrite trader_100_init.
  apply reach_initialize. apply reach_init.
Qed.

(** ** C5: for every portfolio of a state reached by any finite sequence of
    [initialize_portfolio], [execute_signal], [close_position], [check_exits]
    and [reset_daily_stats] calls, [available_capital] is [current_capital]
    minus the sum of [entry_cost] over the portfolio's open positions, and
    these open positions are all the entries of its position map (no entry
    of the map is ever in a non-OPEN status). *)
Theorem available_capital_invariant (rc : RiskConfig) (s : PaperTrader) (name : string)
    (pf : StrategyPortfolio) :
  reachable rc s -> In (name, pf) (portfolios s) ->
  available_capital pf = current_capital pf - rsum (map entry_cost (open_positions pf)) /\
  available_capital pf = current_capital pf - rsum (map (fun kp => entry_cost (snd kp)) (positions pf)).
Proof.
  intros Hr Hin. split; [reflexivity |].
  unfold available_capital, total_exposure.
  rewrite (WF_open_positions s name pf (reachable_WF rc s Hr) Hin), map_map. reflexivity.
Qed.

(** Witness of C5: the state after the spec's example trade *)
Lemma available_capital_invariant_witness :
  reachable risk_config0 trader_100_after /\
  available_capital (mkPortfolio "momentum" 100 100 [(0%nat, position_25)] []) = 100 - 5.
Proof.
  split; [exact reachable_trader_100_after |].
  destruct (available_capital_invariant risk_config0 trader_100_after "momentum"
              (mkPortfolio "momentum" 100 100 [(0%nat, position_25)] [])
              reachable_trader_100_after (or_introl eq_refl)) as [_ H].
  rewrite H. simpl. lra.
Defined.

Lemma WF_close_not_open (s : PaperTrader) (id : nat) (x : R) (reason : string) (now : Z) :
  WF s -> ((exists c, In c (closed_all s) /\ pos_id c = id) \/ (next_uuid s <= id)%nat) ->
  close_position s id x reason now = (None, s).
Proof.
  intros [_ [Hop Hcl]] H. apply close_position_none.
  destruct H as [[c [Hc <-]] | Hle].
  - apply (Hcl c Hc).
  - intros Hin. apply in_map_iff in Hin. destruct Hin as [[k p] [Hk Hkp]]. simpl in Hk.
    subst k. destruct (Hop _ _ Hkp) as [_ [_ Hlt]]. lia.
Qed.

(** ** C6: in a reachable state, closing an id that is already CLOSED or that
    was never issued returns [None] and leaves the whole state, capitals,
    position maps, closed lists and daily P&L included, unchanged; and after
    a successful close of an id, closing the same id again returns [None]
    with the state unchanged, so its pnl is applied to capital and daily P&L
    only once. *)
Theorem close_position_not_found (rc : RiskConfig) (s : PaperTrader) :
  reachable rc s ->
  (forall id x reason now,
     ((exists c, In c (closed_all s) /\ pos_id c = id) \/ (next_uuid s <= id)%nat) ->
     close_position s id x reason now = (None, s)) /\
  (forall id x reason now r s1 x' reason' now',
     close_position s id x reason now = (Some r, s1) ->
     close_position s1 id x' reason' now' = (None, s1)).
Proof.
  intros Hr. pose proof (reachable_WF rc s Hr) as Hwf. split.
  - intros id x reason now H. apply WF_close_not_open; assumption.
  - intros id x reason now r s1 x' reason' now' E.
    assert (Hw1 : WF s1).
    { change s1 with (snd (Some r, s1)). rewrite <- E. apply WF_close. exact Hwf. }
    destruct (close_position_some _ _ _ _ _ _ _ E) as [pos [Hrp [Hp [Hc _]]]].
    apply WF_close_not_open; [exact Hw1 |]. left. exists r. split.
    + apply (Permutation_in _ (Permutation_sym Hc)). left. reflexivity.
    + destruct Hwf as [_ [Hop _]].
      assert (Hin : In (id, pos) (open_entries s)).
      { apply (Permutation_in _ (Permutation_sym Hp)). left. reflexivity. }
      destruct (Hop _ _ Hin) as [Hid _]. rewrite Hrp. exact Hid.
Qed.

(** Witness of C6: after the example trade, id 5 was never issued, and the
    open id 0 closes once and then is not found *)
Lemma close_position_not_found_witness :
  reachable risk_config0 trader_100_after /\
  close_position trader_100_after 5%nat 0.3 "signal" 0 = (None, trader_100_after) /\
  exists r s1, close_position trader_100_after 0%nat 0.3 "signal" 0 = (Some r, s1) /\
    close_position s1 0%nat 0.9 "signal" 1 = (None, s1).
Proof.
  destruct (close_position_not_found risk_config0 trader_100_after reachable_trader_100_after)
    as [H1 H2].
  split; [exact reachable_trader_100_after |]. split.
  - apply H1. right. simpl. lia.
  - set (cp := close_position trader_100_after 0%nat 0.3 "signal" 0).
    exists (mark_closed 0.3 "signal" 0 position_25), (snd cp).
    assert (E : cp = (Some (mark_closed 0.3 "signal" 0 position_25), snd cp))
      by reflexivity.
    split; [exact E | apply (H2 _ _ _ _ _ _ _ _ _ E)].
Defined.

Lemma close_position_none_state (s s1 : PaperTrader) (id : nat) (x : R) (reason : string)
    (now : Z) :
  close_position s id x reason now = (None, s1) -> s1 = s.
Proof.
  unfold close_position.
  destruct (close_in id x reason now (portfolios s)) as [[ps' r']|]; intros H;
    inversion H; reflexivity.
Qed.

Lemma check_exits_loop_keeps_closed (st : Strategy) (md : MarketData) (now : Z)
    (snapshot : list PaperPosition) (s : PaperTrader) (c : PaperPosition) :
  In c (closed_all s) -> In c (closed_all (snd (check_exits_loop st md now snapshot s))).
Proof.
  revert s. induction snapshot as [|p rest IH]; intros s Hc; simpl; [exact Hc |].
  destruct (negb (ticker_matches md p)); [apply IH; exact Hc |].
  destruct (should_exit st _ md); [| apply IH; exact Hc].
  destruct (close_position s (pos_id p) _ "strategy_exit" now) as [res s1] eqn:E.
  assert (Hc1 : In c (closed_all s1)).
  { destruct res as [r|].
    - destruct (close_position_some _ _ _ _ _ _ _ E) as [pos [_ [_ [Hp _]]]].
      apply (Permutation_in _ (Permutation_sym Hp)). right. exact Hc.
    - rewrite (close_position_none_state _ _ _ _ _ _ E). exact Hc. }
  specialize (IH s1 Hc1).
  destruct (check_exits_loop st md now rest s1) as [closed s2].
  destruct res; exact IH.
Qed.

(** The exit test applied to each snapshot entry *)
Definition exit_selected (st : Strategy) (md : MarketData) (p : PaperPosition) : bool :=
  ticker_matches md p &&
  should_exit st (mkPosView (entry_price p) (side p) (metadata p)) md.

Definition exit_yes_price (md : MarketData) : R :=
  match md_yes_price md with Some y => y | None => 0.5 end.

Lemma check_exits_loop_spec (st : Strategy) (md : MarketData) (now : Z)
    (snapshot : list PaperPosition) (s : PaperTrader) :
  WF s -> NoDup (map pos_id snapshot) ->
  (forall p, In p snapshot -> In (pos_id p, p) (open_entries s)) ->
  fst (check_exits_loop st md now snapshot s) =
    map (mark_closed (exit_yes_price md) "strategy_exit" now)
        (filter (exit_selected st md) snapshot) /\
  (forall r, In r (fst (check_exits_loop st md now snapshot s)) ->
     In r (closed_all (snd (check_exits_loop st md now snapshot s)))).
Proof.
  revert s. induction snapshot as [|p rest IH]; intros s Hwf Hnd Hin;
    simpl; [split; [reflexivity | tauto] |].
  inversion Hnd as [|? ? Hnot Hnd']; subst.
  assert (Hin' : forall q, In q rest -> In (pos_id q, q) (open_entries s))
    by (intros q Hq; apply Hin; right; exact Hq).
  unfold exit_selected at 1.
  destruct (ticker_matches md p); simpl; [| apply IH; assumption].
  destruct (should_exit st _ md); simpl; [| apply IH; assumption].
  fold (exit_yes_price md).
  destruct (close_position_open s p (exit_yes_price md) "strategy_exit" now Hwf
              (Hin p (or_introl eq_refl))) as [s1 [E [Hp Hc]]].
  rewrite E.
  assert (Hw1 : WF s1).
  { change s1 with (snd (Some (mark_closed (exit_yes_price md) "strategy_exit" now p), s1)).
    rewrite <- E. apply WF_close. exact Hwf. }
  assert (Hin1 : forall q, In q rest -> In (pos_id q, q) (open_entries s1)).
  { intros q Hq. pose proof (Permutation_in _ Hp (Hin' q Hq)) as [Eq | H]; [| exact H].
    exfalso. apply Hnot. injection Eq as _ Eq'. subst q. apply in_map. exact Hq. }
  destruct (IH s1 Hw1 Hnd' Hin1) as [Hf Hcl].
  destruct (check_exits_loop st md now rest s1) as [closed s2] eqn:El. simpl in *.
  split; [rewrite Hf; reflexivity |].
  intros r [<- | Hr]; [| apply Hcl; exact Hr].
  change s2 with (snd (closed, s2)). rewrite <- El.
  apply check_exits_loop_keeps_closed.
  apply (Permutation_in _ (Permutation_sym Hc)). left. reflexivity.
Qed.

Lemma WF_snapshot (s : PaperTrader) (name : string) (pf : StrategyPortfolio) :
  WF s -> alookup string_dec name (portfolios s) = Some pf ->
  NoDup (map pos_id (open_positions pf)) /\
  (forall p, In p (open_positions pf) -> In (pos_id p, p) (open_entries s)).
Proof.
  intros Hwf Hl. pose proof (alookup_in string_dec _ _ _ Hl) as Hk.
  rewrite (WF_open_positions s name pf Hwf Hk).
  destruct Hwf as [Hnd [Hop _]].
  assert (Hid : forall e, In e (positions pf) -> pos_id (snd e) = fst e).
  { intros [id q] He. apply (Hop id q (in_open_entries s name pf _ Hk He)). }
  split.
  - rewrite map_map, (map_ext_in _ _ _ Hid).
    destruct (alookup_split string_dec _ _ _ Hl) as [l1 [l2 [Eps _]]].
    unfold open_entries in Hnd. rewrite Eps, flat_map_mid, !map_app in Hnd. simpl in Hnd.
    apply NoDup_app_remove_l in Hnd. apply NoDup_app_remove_r in Hnd. exact Hnd.
  - intros p Hp. apply in_map_iff in Hp. destruct Hp as [[id q] [Hq He]]. simpl in Hq.
    subst q. pose proof (Hid _ He) as E. simpl in E. rewrite E.
    apply (in_open_entries s name pf _ Hk He).
Qed.

(** ** C10: when the market data has no ["yes_price"] entry, [check_exits] on
    a reachable state closes every position of the strategy's snapshot whose
    ticker matches the data's ["market_id"] and for which [should_exit] holds,
    in snapshot order, each through [close_position] at the default YES price
    0.5; each closed position has exit price 0.5 whatever its side, is CLOSED,
    is recorded among the closed positions, and is no longer open. *)
Theorem check_exits_default_price (rc : RiskConfig) (s : PaperTrader) (st : Strategy)
    (md : MarketData) (now : Z) (pf : StrategyPortfolio) :
  reachable rc s -> md_yes_price md = None ->
  alookup string_dec (st_name st) (portfolios s) = Some pf ->
  fst (check_exits s st md now) =
    map (mark_closed 0.5 "strategy_exit" now) (filter (exit_selected st md) (open_positions pf)) /\
  (forall r, In r (fst (check_exits s st md now)) ->
     exit_price r = Some 0.5 /\ status r = CLOSED /\
     In r (closed_all (snd (check_exits s st md now))) /\
     ~ In (pos_id r) (map fst (open_entries (snd (check_exits s st md now))))).
Proof.
  intros Hr Hy Hl. pose proof (reachable_WF rc s Hr) as Hwf.
  pose proof (WF_check_exits s st md now Hwf) as [_ [_ Hcl']].
  unfold check_exits in *. rewrite Hl in *.
  destruct (WF_snapshot s _ pf Hwf Hl) as [Hnd Hin].
  destruct (check_exits_loop_spec st md now (open_positions pf) s Hwf Hnd Hin) as [Hf Hc].
  unfold exit_yes_price in Hf. rewrite Hy in Hf.
  split; [exact Hf |].
  intros r Hrin. pose proof (Hc r Hrin) as Hrc.
  rewrite Hf in Hrin. apply in_map_iff in Hrin. destruct Hrin as [p [<- _]].
  split; [| split; [reflexivity | split; [exact Hrc | apply (Hcl' _ Hrc)]]].
  unfold mark_closed. simpl. destruct (string_dec (side p) "yes"); [reflexivity |].
  f_equal. lra.
Qed.

Definition exit_always : Strategy := mkStrategy "momentum" (fun _ _ => true).

Definition md_no_price : MarketData := mkMarketData (Some "KXTEST") None.

(** Witness of C10: the example position is closed at 0.5 by a strategy that
    always exits, with market data lacking ["yes_price"] *)
Lemma check_exits_default_price_witness :
  reachable risk_config0 trader_100_after /\
  fst (check_exits trader_100_after exit_always md_no_price 7) =
    [mark_closed 0.5 "strategy_exit" 7 position_25] /\
  exit_price (mark_closed 0.5 "strategy_exit" 7 position_25) = Some 0.5.
Proof.
  destruct (check_exits_default_price risk_config0 trader_100_after exit_always md_no_price 7
              (mkPortfolio "momentum" 100 100 [(0%nat, position_25)] [])
              reachable_trader_100_after eq_refl eq_refl) as [Hf Hall].
  split; [exact reachable_trader_100_after |].
  assert (E : fst (check_exits trader_100_after exit_always md_no_price 7) =
                [mark_closed 0.5 "strategy_exit" 7 position_25])
    by (rewrite Hf; reflexivity).
  split; [exact E |].
  apply (Hall (mark_closed 0.5 "strategy_exit" 7 position_25)). rewrite E. left. reflexivity.
Defined.

(** * Further properties of the ledger *)

Section AlistMore.
Context {K V : Type} (keq : forall x y : K, {x = y} + {x <> y}).

Lemma in_aset (k k0 : K) (v v0 : V) (l : list (K * V)) :
  In (k, v) (aset keq k0 v0 l) -> (k, v) = (k0, v0) \/ In (k, v) l.
Proof.
  induction l as [|[k1 v1] l IH]; simpl; [intros [E | []]; left; congruence |].
  destruct (keq k0 k1) as [<- | Hne]; simpl.
  - intros [E | H]; [left; congruence | right; right; exact H].
  - intros [E | H]; [right; left; exact E |].
    destruct (IH H); [left | right; right]; assumption.
Qed.

Lemma aset_keys (k : K) (v : V) (l : list (K * V)) :
  In k (map fst l) -> map fst (aset keq k v l) = map fst l.
Proof.
  induction l as [|[k1 v1] l IH]; simpl; [tauto |].
  destruct (keq k k1) as [<- | Hne]; simpl; [reflexivity |].
  intros [E | H]; [congruence | rewrite IH by exact H; reflexivity].
Qed.
End AlistMore.

Lemma check_exits_loop_preserves (P : PaperTrader -> Prop)
    (HP : forall s id x reason now, P s -> P (snd (close_position s id x reason now)))
    (st : Strategy) (md : MarketData) (now : Z) (snapshot : list PaperPosition) :
  forall s, P s -> P (snd (check_exits_loop st md now snapshot s)).
Proof.
  induction snapshot as [|p rest IH]; intros s Hs; simpl; [exact Hs |].
  destruct (negb (ticker_matches md p)); [apply IH; exact Hs |].
  destruct (should_exit st _ md); [| apply IH; exact Hs].
  destruct (close_position s (pos_id p) _ "strategy_exit" now) as [res s1] eqn:E.
  assert (H1 : P s1).
  { change s1 with (snd (res, s1)). rewrite <- E. apply HP. exact Hs. }
  specialize (IH s1 H1). destruct (check_exits_loop st md now rest s1) as [closed s2].
  destruct res; exact IH.
Qed.

Lemma check_exits_preserves (P : PaperTrader -> Prop)
    (HP : forall s id x reason now, P s -> P (snd (close_position s id x reason now)))
    (s : PaperTrader) (st : Strategy) (md : MarketData) (now : Z) :
  P s -> P (snd (check_exits s st md now)).
Proof.
  intros Hs. unfold check_exits.
  destruct (alookup string_dec (st_name st) (portfolios s)); [| exact Hs].
  apply check_exits_loop_preserves; assumption.
Qed.

(** Every portfolio's capital is its baseline plus its realized P&L *)
Definition reconciled (s : PaperTrader) : Prop :=
  forall k pf, In (k, pf) (portfolios s) ->
    current_capital pf = initial_capital pf + total_pnl pf.

Lemma total_pnl_snoc (l : list PaperPosition) (r : PaperPosition) :
  rsum (map pnl (l ++ [r])) = rsum (map pnl l) + pnl r.
Proof. rewrite map_app, rsum_app. simpl. lra. Qed.

Lemma reconciled_close (s : PaperTrader) (id : nat) (x : R) (reason : string) (now : Z) :
  reconciled s -> reconciled (snd (close_position s id x reason now)).
Proof.
  intros H. unfold close_position.
  destruct (close_in id x reason now (portfolios s)) as [[ps' r]|] eqn:E; [| exact H].
  destruct (close_in_some id x reason now _ _ _ E)
    as [l1 [k [pf [l2 [pos [P1 [P2 [Eps [HP [Hr Eps']]]]]]]]]].
  intros k' pf' Hin. simpl in Hin. rewrite Eps' in Hin.
  apply in_app_or in Hin. destruct Hin as [Hin | [Ek | Hin]].
  - apply (H k'). rewrite Eps. apply in_or_app. left. exact Hin.
  - inversion Ek; subst k' pf'. simpl. unfold total_pnl. simpl.
    rewrite total_pnl_snoc.
    rewrite (H k pf) by (rewrite Eps; apply in_or_app; right; left; reflexivity).
    unfold total_pnl. lra.
  - apply (H k'). rewrite Eps. apply in_or_app. right. right. exact Hin.
Qed.

Lemma reconciled_reachable (rc : RiskConfig) (s : PaperTrader) :
  reachable rc s -> reconciled s.
Proof.
  induction 1 as [| s name cap _ IH | s sg mp now _ IH | s id xp reason now _ IH
                  | s st md now _ IH | s _ IH].
  - intros k pf [].
  - intros k pf Hin. destruct (in_aset string_dec _ _ _ _ _ Hin) as [E | Hin'].
    + inversion E; subst. unfold total_pnl. simpl. lra.
    + exact (IH k pf Hin').
  - destruct (execute_signal rc s sg mp now) as [res s'] eqn:E. simpl.
    destruct (execute_signal_shape rc s sg mp now res s' E)
      as [[r [_ ->]] | [pf [pos [_ [Hl [_ [_ ->]]]]]]]; [exact IH |].
    intros k pf' Hin. simpl in Hin. destruct (in_aset string_dec _ _ _ _ _ Hin) as [Ek | Hin'].
    + inversion Ek; subst. unfold total_pnl. simpl.
      apply (IH (sig_strategy_name sg) pf (alookup_in string_dec _ _ _ Hl)).
    + exact (IH k pf' Hin').
  - apply reconciled_close. exact IH.
  - apply check_exits_preserves; [intros; apply reconciled_close; assumption | exact IH].
  - exact IH.
Qed.

Lemma rsum_map_eq {A} (f g : A -> R) (l : list A) :
  (forall x, In x l -> f x = g x) -> rsum (map f l) = rsum (map g l).
Proof.
  induction l as [|a l IH]; intros H; simpl; [reflexivity |].
  rewrite (H a (or_introl eq_refl)), IH; [reflexivity |]. intros x Hx. apply H. right. exact Hx.
Qed.

Lemma rsum_map_plus {A} (f g : A -> R) (l : list A) :
  rsum (map (fun x => f x + g x) l) = rsum (map f l) + rsum (map g l).
Proof. induction l as [|a l IH]; simpl; [lra | rewrite IH; lra]. Qed.

(** The example position closed at YES price 0.3 *)
Definition closed_25 : PaperPosition := mark_closed 0.3 "signal" 0 position_25.

Definition trader_closed : PaperTrader :=
  snd (close_position trader_100_after 0 0.3 "signal" 0).

Definition portfolio_closed : StrategyPortfolio :=
  mkPortfolio "momentum" 100 (100 + pnl closed_25) [] [closed_25].

Lemma trader_closed_portfolios :
  portfolios trader_closed = [("momentum", portfolio_closed)].
Proof. reflexivity. Qed.

Lemma reachable_trader_closed : reachable risk_config0 trader_closed.
Proof. apply reach_close. exact reachable_trader_100_after. Qed.

(** ** X1: in every reachable state, each portfolio's [current_capital] is its
    [initial_capital] plus its realized P&L [total_pnl]: opening a position
    never moves capital, and a close adds exactly the closed position's pnl. *)
Theorem current_capital_reconciled (rc : RiskConfig) (s : PaperTrader) (k : string)
    (pf : StrategyPortfolio) :
  reachable rc s -> In (k, pf) (portfolios s) ->
  current_capital pf = initial_capital pf + total_pnl pf.
Proof. intros Hr Hin. exact (reconciled_reachable rc s Hr k pf Hin). Qed.

Lemma current_capital_reconciled_witness :
  reachable risk_config0 trader_closed /\
  In ("momentum", portfolio_closed) (portfolios trader_closed) /\
  current_capital portfolio_closed = initial_capital portfolio_closed + total_pnl portfolio_closed.
Proof.
  assert (Hin : In ("momentum", portfolio_closed) (portfolios trader_closed))
    by (rewrite trader_closed_portfolios; left; reflexivity).
  split; [exact reachable_trader_closed | split; [exact Hin |]].
  exact (current_capital_reconciled risk_config0 trader_closed "momentum" portfolio_closed
           reachable_trader_closed Hin).
Defined.

(** ** X2: in every reachable state, the [total_capital] of [get_summary] is
    the sum of the portfolios' [initial_capital] plus the summary's
    [total_pnl]. *)
Theorem get_summary_capital (rc : RiskConfig) (s : PaperTrader) :
  reachable rc s ->
  su_total_capital (get_summary s) =
    rsum (map (fun kp => initial_capital (snd kp)) (portfolios s)) + su_total_pnl (get_summary s).
Proof.
  intros Hr. pose proof (reconciled_reachable rc s Hr) as H. simpl.
  rewrite <- rsum_map_plus. apply rsum_map_eq. intros [k pf] Hin. exact (H k pf Hin).
Qed.

Lemma get_summary_capital_witness :
  reachable risk_config0 trader_closed /\
  su_total_capital (get_summary trader_closed) = 100 + su_total_pnl (get_summary trader_closed).
Proof.
  split; [exact reachable_trader_closed |].
  rewrite (get_summary_capital risk_config0 trader_closed reachable_trader_closed).
  rewrite trader_closed_portfolios. simpl. lra.
Defined.

(** The totals [_check_risk_limits] computes over all portfolios *)
Definition open_count (s : PaperTrader) : nat :=
  fold_right Nat.add 0%nat (map (fun kp => List.length (open_positions (snd kp))) (portfolios s)).

Definition global_exposure (s : PaperTrader) : R :=
  rsum (map (fun kp => total_exposure (snd kp)) (portfolios s)).

Lemma check_risk_limits_ok (rc : RiskConfig) (s : PaperTrader) (sg : Signal)
    (pf : StrategyPortfolio) :
  check_risk_limits rc s sg pf = None ->
  sig_size sg <= available_capital pf /\ sig_size sg <= max_position_size rc /\
  global_exposure s + sig_size sg <= max_total_capital rc * max_exposure_pct rc /\
  (open_count s < max_concurrent_positions rc)%nat /\
  - max_daily_loss rc <= daily_pnl s.
Proof.
  unfold check_risk_limits, global_exposure, open_count.
  destruct (Rgt_dec _ _); [discriminate |]. destruct (Rgt_dec _ _); [discriminate |].
  destruct (Rgt_dec _ _); [discriminate |].
  destruct (Nat.leb _ _) eqn:Hle; [discriminate |]. apply Nat.leb_gt in Hle.
  destruct (Rlt_dec _ _); [discriminate |]. intros _.
  repeat split; try lra; exact Hle.
Qed.

Lemma py_int_pos_le (x : R) : (0 < py_int x)%Z -> 1 <= IZR (py_int x) <= x.
Proof.
  unfold py_int. destruct (Rle_dec 0 x) as [H | H].
  - intros Hq. pose proof (base_Int_part x) as [Hb _].
    split; [apply IZR_le; lia | exact Hb].
  - intros Hq. exfalso. pose proof (Int_part_nonneg (- x) ltac:(lra)). lia.
Qed.

(** What a successful [execute_signal] has checked and created *)
Lemma execute_signal_opened (rc : RiskConfig) (s : PaperTrader) (sg : Signal)
    (mp : R) (now : Z) (pos : PaperPosition) (s' : PaperTrader) :
  execute_signal rc s sg mp now = (Opened pos, s') ->
  exists pf, alookup string_dec (sig_strategy_name sg) (portfolios s) = Some pf /\
    check_risk_limits rc s sg pf = None /\
    0 < entry_cost pos <= sig_size sg /\
    entry_price pos = (if string_dec (sig_side sg) "yes" then mp else 1 - mp) /\
    entry_cost pos = IZR (quantity pos) * entry_price pos /\
    side pos = sig_side sg.
Proof.
  unfold execute_signal.
  destruct (alookup string_dec (sig_strategy_name sg) (portfolios s)) as [pf|];
    [| discriminate].
  destruct (check_risk_limits rc s sg pf) eqn:Hc; [discriminate |].
  cbv zeta.
  set (price := if string_dec (sig_side sg) "yes" then mp else 1 - mp).
  destruct (Rgt_dec price 0) as [Hp | Hp]; [| simpl; discriminate].
  destruct (Z.leb (py_int (sig_size sg / price)) 0) eqn:Hq; [discriminate |].
  apply Z.leb_gt in Hq. intros E. inversion E; subst. clear E.
  exists pf. simpl. split; [reflexivity | split; [exact Hc |]].
  pose proof (py_int_pos_le _ Hq) as [H1 H2].
  split; [| repeat split; reflexivity].
  split; [apply Rmult_lt_0_compat; lra |].
  apply (Rmult_le_compat_r price) in H2; [| lra].
  replace (sig_size sg / price * price) with (sig_size sg) in H2 by (field; lra).
  exact H2.
Qed.

Lemma execute_open_entries (rc : RiskConfig) (s : PaperTrader) (sg : Signal) (mp : R)
    (now : Z) (pos : PaperPosition) (s' : PaperTrader) :
  WF s -> execute_signal rc s sg mp now = (Opened pos, s') ->
  Permutation (open_entries s') ((pos_id pos, pos) :: open_entries s).
Proof.
  intros Hwf E.
  destruct (execute_signal_shape rc s sg mp now _ s' E)
    as [[r [Er _]] | [pf [pos' [Eo [Hl [Hid [Hst ->]]]]]]]; [discriminate |].
  inversion Eo; subst pos'. clear Eo.
  destruct (alookup_split string_dec _ pf _ Hl) as [l1 [l2 [Eps [_ [_ Hs]]]]].
  assert (Hnone : alookup Nat.eq_dec (pos_id pos) (positions pf) = None).
  { apply alookup_none. intros Hin. apply in_map_iff in Hin.
    destruct Hin as [[k p] [Hk Hkp]]. simpl in Hk. subst k.
    destruct Hwf as [_ [Hop _]].
    assert (In (pos_id pos, p) (open_entries s)).
    { unfold open_entries. rewrite Eps, flat_map_mid. apply in_or_app. right.
      apply in_or_app. left. exact Hkp. }
    destruct (Hop _ _ H) as [_ [_ Hlt]]. lia. }
  unfold open_entries. simpl. rewrite Hs, Eps, !flat_map_mid. simpl.
  rewrite aset_absent by exact Hnone.
  pose proof (perm_mid_app (flat_map (fun kp => positions (snd kp)) l1) (positions pf) []
                (flat_map (fun kp => positions (snd kp)) l2) (pos_id pos, pos)) as Hp.
  rewrite app_nil_r in Hp. exact Hp.
Qed.

Lemma initialize_open_entries (s : PaperTrader) (name : string) (cap : R) :
  exists d, Permutation (open_entries s) (open_entries (initialize_portfolio s name cap) ++ d).
Proof.
  unfold initialize_portfolio, open_entries. simpl.
  destruct (alookup string_dec name (portfolios s)) as [v0|] eqn:Hl.
  - destruct (alookup_split string_dec name v0 _ Hl) as [l1 [l2 [E [_ [_ Hs]]]]].
    rewrite Hs, E, !flat_map_mid. simpl. exists (positions v0).
    rewrite app_assoc, <- !app_assoc. apply Permutation_app_head. apply Permutation_app_comm.
  - exists []. rewrite aset_absent by exact Hl. rewrite flat_map_app. simpl.
    rewrite !app_nil_r. reflexivity.
Qed.

Lemma open_count_entries_list (ps : list (string * StrategyPortfolio)) :
  (forall k pf, In (k, pf) ps -> open_positions pf = map snd (positions pf)) ->
  fold_right Nat.add 0%nat (map (fun kp => List.length (open_positions (snd kp))) ps) =
  List.length (flat_map (fun kp => positions (snd kp)) ps) /\
  rsum (map (fun kp => total_exposure (snd kp)) ps) =
  rsum (map (fun kp => entry_cost (snd kp)) (flat_map (fun kp => positions (snd kp)) ps)).
Proof.
  induction ps as [|[k pf] ps IH]; intros H; simpl; [split; reflexivity |].
  destruct IH as [IH1 IH2]; [intros k' pf' Hin; apply (H k'); right; exact Hin |].
  rewrite length_app, map_app, rsum_app, IH1, IH2.
  unfold total_exposure. rewrite (H k pf (or_introl eq_refl)), length_map, map_map.
  split; reflexivity.
Qed.

Lemma WF_totals (s : PaperTrader) :
  WF s -> open_count s = List.length (open_entries s) /\
  global_exposure s = rsum (map (fun kp => entry_cost (snd kp)) (open_entries s)).
Proof.
  intros Hwf. apply open_count_entries_list. intros k pf Hin.
  exact (WF_open_positions s k pf Hwf Hin).
Qed.

Lemma rsum_perm (l l' : list R) : Permutation l l' -> rsum l = rsum l'.
Proof.
  induction 1; simpl; try lra.
Qed.

Lemma rsum_nonneg_le_app (l d : list R) :
  (forall x, In x d -> 0 <= x) -> rsum l <= rsum (l ++ d).
Proof.
  intros H. rewrite rsum_app. assert (0 <= rsum d); [| lra].
  induction d as [|a d IH]; simpl; [lra |].
  assert (0 <= a) by (apply H; left; reflexivity).
  assert (0 <= rsum d) by (apply IH; intros x Hx; apply H; right; exact Hx). lra.
Qed.

(** The book the risk limits keep: ledger invariant, at most
    [max_concurrent_positions] open positions, each with a positive cost, and
    their total cost within [max_total_capital * max_exposure_pct] *)
Definition risk_inv (rc : RiskConfig) (s : PaperTrader) : Prop :=
  WF s /\ (List.length (open_entries s) <= max_concurrent_positions rc)%nat /\
  (forall k p, In (k, p) (open_entries s) -> 0 < entry_cost p) /\
  rsum (map (fun kp => entry_cost (snd kp)) (open_entries s))
    <= Rmax 0 (max_total_capital rc * max_exposure_pct rc).

Lemma risk_inv_shrink (rc : RiskConfig) (s s' : PaperTrader) (d : list (nat * PaperPosition)) :
  risk_inv rc s -> WF s' -> Permutation (open_entries s) (open_entries s' ++ d) ->
  risk_inv rc s'.
Proof.
  intros [_ [Hlen [Hpos Hexp]]] Hwf Hp. split; [exact Hwf |].
  pose proof (Permutation_length Hp) as Hl. rewrite length_app in Hl.
  split; [lia |]. split.
  - intros k p Hin. apply (Hpos k p). apply (Permutation_in _ (Permutation_sym Hp)).
    apply in_or_app. left. exact Hin.
  - rewrite (rsum_perm _ _ (Permutation_map (fun kp => entry_cost (snd kp)) Hp)) in Hexp.
    rewrite map_app in Hexp.
    assert (H : rsum (map (fun kp => entry_cost (snd kp)) (open_entries s'))
                <= rsum (map (fun kp => entry_cost (snd kp)) (open_entries s') ++
                         map (fun kp => entry_cost (snd kp)) d)).
    { apply rsum_nonneg_le_app. intros x Hx. apply in_map_iff in Hx.
      destruct Hx as [[k p] [<- Hkp]]. simpl. apply Rlt_le. apply (Hpos k p).
      apply (Permutation_in _ (Permutation_sym Hp)). apply in_or_app. right. exact Hkp. }
    lra.
Qed.

Lemma risk_inv_close (rc : RiskConfig) (s : PaperTrader) (id : nat) (x : R)
    (reason : string) (now : Z) :
  risk_inv rc s -> risk_inv rc (snd (close_position s id x reason now)).
Proof.
  intros H. pose proof (WF_close s id x reason now (proj1 H)) as Hw.
  destruct (close_position s id x reason now) as [[r|] s1] eqn:E; simpl in *;
    [| rewrite (close_position_none_state _ _ _ _ _ _ E); exact H].
  destruct (close_position_some _ _ _ _ _ _ _ E) as [pos [_ [Hp _]]].
  apply (risk_inv_shrink rc s s1 [(id, pos)] H Hw).
  apply (Permutation_trans Hp). apply Permutation_cons_append.
Qed.

Lemma risk_inv_execute (rc : RiskConfig) (s : PaperTrader) (sg : Signal) (mp : R) (now : Z) :
  risk_inv rc s -> risk_inv rc (snd (execute_signal rc s sg mp now)).
Proof.
  intros H. pose proof (WF_execute rc s sg mp now (proj1 H)) as Hw.
  destruct (execute_signal rc s sg mp now) as [res s'] eqn:E. simpl in *.
  destruct res as [pos | r].
  2:{ destruct (execute_signal_shape rc s sg mp now _ s' E) as [[r' [_ ->]] | [? [? [? _]]]];
      [exact H | discriminate]. }
  destruct H as [Hwf [Hlen [Hpos Hexp]]].
  pose proof (execute_open_entries rc s sg mp now pos s' Hwf E) as Hp.
  destruct (execute_signal_opened rc s sg mp now pos s' E)
    as [pf [_ [Hc [[Hc0 Hc1] _]]]].
  destruct (check_risk_limits_ok rc s sg pf Hc) as [_ [_ [Hge [Hcnt _]]]].
  destruct (WF_totals s Hwf) as [Ec Ee]. rewrite Ec in Hcnt. rewrite Ee in Hge.
  split; [exact Hw |]. split; [| split].
  - rewrite (Permutation_length Hp). simpl. lia.
  - intros k p Hin. apply (Permutation_in _ Hp) in Hin. destruct Hin as [Eq | Hin].
    + inversion Eq; subst. exact Hc0.
    + exact (Hpos k p Hin).
  - rewrite (rsum_perm _ _ (Permutation_map (fun kp => entry_cost (snd kp)) Hp)). simpl.
    pose proof (Rmax_r 0 (max_total_capital rc * max_exposure_pct rc)). lra.
Qed.

Lemma risk_inv_reachable (rc : RiskConfig) (s : PaperTrader) :
  reachable rc s -> risk_inv rc s.
Proof.
  induction 1 as [| s name cap _ IH | s sg mp now _ IH | s id xp reason now _ IH
                  | s st md now _ IH | s _ IH].
  - split; [exact WF_empty |]. unfold open_entries. simpl.
    split; [lia | split; [intros k p [] | apply Rmax_l]].
  - destruct (initialize_open_entries s name cap) as [d Hp].
    apply (risk_inv_shrink rc s _ d IH (WF_initialize s name cap (proj1 IH)) Hp).
  - apply risk_inv_execute. exact IH.
  - apply risk_inv_close. exact IH.
  - apply check_exits_preserves; [intros; apply risk_inv_close; assumption | exact IH].
  - exact IH.
Qed.

(** ** X3: in every reachable state, the number of open positions over all
    portfolios, counted as [_check_risk_limits] counts it, is at most
    [max_concurrent_positions]. *)
Theorem open_count_bounded (rc : RiskConfig) (s : PaperTrader) :
  reachable rc s -> (open_count s <= max_concurrent_positions rc)%nat.
Proof.
  intros Hr. destruct (risk_inv_reachable rc s Hr) as [Hwf [Hlen _]].
  rewrite (proj1 (WF_totals s Hwf)). exact Hlen.
Qed.

Lemma open_count_bounded_witness :
  reachable risk_config0 trader_100_after /\
  (open_count trader_100_after <= max_concurrent_positions risk_config0)%nat.
Proof.
  split; [exact reachable_trader_100_after |].
  exact (open_count_bounded risk_config0 trader_100_after reachable_trader_100_after).
Defined.

(** ** X4: in every reachable state, every open position has a positive
    [entry_cost], and the total exposure over all portfolios, computed as in
    [_check_risk_limits], is at most [max_total_capital * max_exposure_pct]
    (at most 0 when that product is negative, as no trade then passes). *)
Theorem global_exposure_bounded (rc : RiskConfig) (s : PaperTrader) :
  reachable rc s ->
  global_exposure s <= Rmax 0 (max_total_capital rc * max_exposure_pct rc) /\
  (forall k pf p, In (k, pf) (portfolios s) -> In p (open_positions pf) -> 0 < entry_cost p).
Proof.
  intros Hr. destruct (risk_inv_reachable rc s Hr) as [Hwf [_ [Hpos Hexp]]].
  split; [rewrite (proj2 (WF_totals s Hwf)); exact Hexp |].
  intros k pf p Hk Hp. unfold open_positions in Hp. apply filter_In in Hp.
  destruct Hp as [Hp _]. apply in_map_iff in Hp. destruct Hp as [[id q] [Hq Hin]].
  simpl in Hq. subst q. apply (Hpos id p). exact (in_open_entries s k pf _ Hk Hin).
Qed.

Lemma global_exposure_bounded_witness :
  reachable risk_config0 trader_100_after /\
  global_exposure trader_100_after <= 40.
Proof.
  split; [exact reachable_trader_100_after |].
  destruct (global_exposure_bounded risk_config0 trader_100_after reachable_trader_100_after)
    as [H _].
  replace 40 with (Rmax 0 (max_total_capital risk_config0 * max_exposure_pct risk_config0)).
  - exact H.
  - unfold Rmax. simpl. rdec.
Defined.

Lemma WF_fresh (s : PaperTrader) (k : string) (pf : StrategyPortfolio) :
  WF s -> In (k, pf) (portfolios s) ->
  alookup Nat.eq_dec (next_uuid s) (positions pf) = None.
Proof.
  intros [_ [Hop _]] Hk. apply alookup_none. intros Hin. apply in_map_iff in Hin.
  destruct Hin as [[id p] [Hid Hin]]. simpl in Hid. subst id.
  destruct (Hop _ _ (in_open_entries s k pf _ Hk Hin)) as [_ [_ Hlt]]. lia.
Qed.

(** ** X5: in a reachable state, a trade that [execute_signal] opens costs
    more than 0 and at most the signal's size, which the risk check bounded
    by the portfolio's available capital; the portfolio's available capital
    drops by exactly that cost, so it is never driven below 0. *)
Theorem execute_signal_within_available (rc : RiskConfig) (s : PaperTrader) (sg : Signal)
    (mp : R) (now : Z) (pos : PaperPosition) (s' : PaperTrader) :
  reachable rc s -> execute_signal rc s sg mp now = (Opened pos, s') ->
  exists pf pf',
    alookup string_dec (sig_strategy_name sg) (portfolios s) = Some pf /\
    alookup string_dec (sig_strategy_name sg) (portfolios s') = Some pf' /\
    0 < entry_cost pos <= sig_size sg /\ sig_size sg <= available_capital pf /\
    available_capital pf' = available_capital pf - entry_cost pos /\
    0 <= available_capital pf'.
Proof.
  intros Hr E. pose proof (reachable_WF rc s Hr) as Hwf.
  destruct (execute_signal_opened rc s sg mp now pos s' E)
    as [pf [Hl [Hc [Hcost _]]]].
  destruct (check_risk_limits_ok rc s sg pf Hc) as [Hav _].
  destruct (execute_signal_shape rc s sg mp now _ s' E)
    as [[r [Er _]] | [pf0 [pos' [Eo [Hl0 [Hid [Hst ->]]]]]]]; [discriminate |].
  inversion Eo; subst pos'. clear Eo. rewrite Hl in Hl0. inversion Hl0; subst pf0. clear Hl0.
  set (pf' := mkPortfolio (pf_strategy_name pf) (initial_capital pf) (current_capital pf)
                (aset Nat.eq_dec (pos_id pos) pos (positions pf)) (closed_positions pf)).
  assert (Hav' : available_capital pf' = available_capital pf - entry_cost pos).
  { unfold available_capital, total_exposure, open_positions, pf'. simpl.
    rewrite (aset_absent Nat.eq_dec (pos_id pos) pos (positions pf))
      by (rewrite Hid; exact (WF_fresh s _ pf Hwf (alookup_in string_dec _ _ _ Hl))).
    rewrite map_app, filter_app, map_app, rsum_app. simpl. rewrite Hst. simpl. lra. }
  exists pf, pf'. split; [exact Hl |]. split.
  - simpl. rewrite alookup_aset. destruct (string_dec _ _); [reflexivity | congruence].
  - split; [exact Hcost |]. split; [exact Hav |]. split; [exact Hav' | lra].
Qed.

Lemma execute_signal_within_available_witness :
  reachable risk_config0 trader_100 /\
  exists pf pf',
    alookup string_dec "momentum" (portfolios trader_100) = Some pf /\
    alookup string_dec "momentum" (portfolios trader_100_after) = Some pf' /\
    0 < entry_cost position_25 <= 5 /\ 5 <= available_capital pf /\
    available_capital pf' = available_capital pf - entry_cost position_25 /\
    0 <= available_capital pf'.
Proof.
  assert (Hr : reachable risk_config0 trader_100)
    by (rewrite trader_100_init; apply reach_initialize; apply reach_init).
  split; [exact Hr |].
  exact (execute_signal_within_available risk_config0 trader_100 signal_yes_5 0.2 0
           position_25 trader_100_after Hr execute_signal_yes_5).
Defined.

(** ** X6: in a reachable state, a position opened by [execute_signal] at
    YES price [mp] is then found by [close_position] (the later close at YES
    price [x] succeeds), and the realized pnl is [quantity * (x - mp)] for a
    "yes" position and [quantity * (mp - x)] otherwise; that pnl is added to
    the daily P&L. *)
Theorem open_close_pnl (rc : RiskConfig) (s : PaperTrader) (sg : Signal) (mp : R)
    (now : Z) (pos : PaperPosition) (s' : PaperTrader) (x : R) (reason : string) (now' : Z) :
  reachable rc s -> execute_signal rc s sg mp now = (Opened pos, s') ->
  exists s'',
    close_position s' (pos_id pos) x reason now' = (Some (mark_closed x reason now' pos), s'') /\
    pnl (mark_closed x reason now' pos) =
      (if string_dec (sig_side sg) "yes" then IZR (quantity pos) * (x - mp)
       else IZR (quantity pos) * (mp - x)) /\
    daily_pnl s'' = daily_pnl s + pnl (mark_closed x reason now' pos).
Proof.
  intros Hr E. pose proof (reachable_WF rc s Hr) as Hwf.
  assert (Hw' : WF s').
  { change s' with (snd (Opened pos, s')). rewrite <- E. apply WF_execute. exact Hwf. }
  pose proof (execute_open_entries rc s sg mp now pos s' Hwf E) as Hp.
  destruct (close_position_open s' pos x reason now' Hw'
              (Permutation_in _ (Permutation_sym Hp) (or_introl eq_refl))) as [s'' [Ec _]].
  destruct (close_position_some _ _ _ _ _ _ _ Ec) as [_ [_ [_ [_ [_ Hd]]]]].
  destruct (execute_signal_opened rc s sg mp now pos s' E)
    as [_ [_ [_ [_ [Hep [Hec Hside]]]]]].
  destruct (execute_signal_shape rc s sg mp now _ s' E)
    as [[r [Er _]] | [pf0 [pos' [_ [_ [_ [_ Es']]]]]]]; [discriminate |].
  exists s''. split; [exact Ec |]. split.
  - unfold pnl, mark_closed. simpl. rewrite Hec, Hep, Hside.
    destruct (string_dec (sig_side sg) "yes"); ring.
  - rewrite Hd, Es'. reflexivity.
Qed.

Lemma open_close_pnl_witness :
  reachable risk_config0 trader_100 /\
  exists s'',
    close_position trader_100_after 0 0.3 "signal" 1 =
      (Some (mark_closed 0.3 "signal" 1 position_25), s'') /\
    pnl (mark_closed 0.3 "signal" 1 position_25) = IZR 25 * (0.3 - 0.2) /\
    daily_pnl s'' = 0 + pnl (mark_closed 0.3 "signal" 1 position_25).
Proof.
  assert (Hr : reachable risk_config0 trader_100)
    by (rewrite trader_100_init; apply reach_initialize; apply reach_init).
  split; [exact Hr |].
  exact (open_close_pnl risk_config0 trader_100 signal_yes_5 0.2 0 position_25
           trader_100_after 0.3 "signal" 1 Hr execute_signal_yes_5).
Defined.

Definition total_current_capital (s : PaperTrader) : R :=
  rsum (map (fun kp => current_capital (snd kp)) (portfolios s)).

(** ** X7: when [close_position] closes a position [r], [r] is CLOSED, its
    metadata maps ["close_reason"] to the given reason, its exit value is
    [quantity] times the side's price ([x] for "yes", [1 - x] otherwise), the
    sum of [current_capital] over the portfolios and the daily P&L both grow
    by [pnl r], and exactly one position is added to the closed lists. *)
Theorem close_position_bookkeeping (s s1 : PaperTrader) (id : nat) (x : R) (reason : string)
    (now : Z) (r : PaperPosition) :
  close_position s id x reason now = (Some r, s1) ->
  status r = CLOSED /\
  alookup string_dec "close_reason" (metadata r) = Some reason /\
  exit_value r = Some (IZR (quantity r) * (if string_dec (side r) "yes" then x else 1 - x)) /\
  total_current_capital s1 = total_current_capital s + pnl r /\
  daily_pnl s1 = daily_pnl s + pnl r /\
  List.length (closed_all s1) = S (List.length (closed_all s)).
Proof.
  intros E. destruct (close_position_some _ _ _ _ _ _ _ E) as [pos [Hr [_ [Hc [_ Hd]]]]].
  unfold close_position in E.
  destruct (close_in id x reason now (portfolios s)) as [[ps' r']|] eqn:Ec; [| discriminate].
  inversion E; subst r' s1. clear E.
  destruct (close_in_some id x reason now _ _ _ Ec)
    as [l1 [k [pf [l2 [pos' [P1 [P2 [Eps [_ [Hr' Eps']]]]]]]]]].
  split; [rewrite Hr; reflexivity |].
  split; [rewrite Hr; simpl; rewrite alookup_aset; reflexivity |].
  split; [rewrite Hr; reflexivity |].
  split; [| split; [exact Hd | rewrite (Permutation_length Hc); reflexivity]].
  unfold total_current_capital. simpl. rewrite Eps', Eps, !map_app, !rsum_app. simpl. lra.
Qed.

Lemma close_position_bookkeeping_witness :
  close_position trader_100_after 0 0.3 "signal" 0 = (Some closed_25, trader_closed) /\
  status closed_25 = CLOSED /\
  alookup string_dec "close_reason" (metadata closed_25) = Some "signal" /\
  exit_value closed_25 = Some (IZR (quantity closed_25) * 0.3) /\
  total_current_capital trader_closed = total_current_capital trader_100_after + pnl closed_25 /\
  daily_pnl trader_closed = daily_pnl trader_100_after + pnl closed_25 /\
  List.length (closed_all trader_closed) = S (List.length (closed_all trader_100_after)).
Proof.
  assert (E : close_position trader_100_after 0 0.3 "signal" 0 = (Some closed_25, trader_closed))
    by reflexivity.
  split; [exact E |].
  exact (close_position_bookkeeping trader_100_after trader_closed 0 0.3 "signal" 0 closed_25 E).
Defined.

(** ** X8: while the daily P&L is below [- max_daily_loss], [execute_signal]
    rejects every signal and leaves the state unchanged. *)
Theorem daily_loss_blocks_trading (rc : RiskConfig) (s : PaperTrader) (sg : Signal) (mp : R)
    (now : Z) :
  daily_pnl s < - max_daily_loss rc ->
  exists r, execute_signal rc s sg mp now = (Rejected r, s).
Proof.
  intros Hd. unfold execute_signal.
  destruct (alookup string_dec (sig_strategy_name sg) (portfolios s)) as [pf|];
    [| exists NoPortfolio; reflexivity].
  destruct (check_risk_limits rc s sg pf) as [r|] eqn:Hc; [exists r; reflexivity |].
  exfalso. destruct (check_risk_limits_ok rc s sg pf Hc) as [_ [_ [_ [_ H]]]]. lra.
Qed.

Definition trader_down_25 : PaperTrader :=
  mkTrader [("momentum", mkPortfolio "momentum" 100 100 [] [])] (-25) 0.

Lemma daily_loss_blocks_trading_witness :
  daily_pnl trader_down_25 < - max_daily_loss risk_config0 /\
  exists r, execute_signal risk_config0 trader_down_25 signal_yes_5 0.2 0 = (Rejected r, trader_down_25).
Proof.
  assert (H : daily_pnl trader_down_25 < - max_daily_loss risk_config0) by (simpl; lra).
  split; [exact H |].
  exact (daily_loss_blocks_trading risk_config0 trader_down_25 signal_yes_5 0.2 0 H).
Defined.

Lemma flat_map_app_perm {A B} (f g : A -> list B) (l : list A) :
  Permutation (flat_map (fun x => f x ++ g x) l) (flat_map f l ++ flat_map g l).
Proof.
  induction l as [|a l IH]; simpl; [reflexivity |].
  rewrite <- !app_assoc. apply Permutation_app_head.
  apply (Permutation_trans (Permutation_app_head (g a) IH)).
  apply Permutation_app_swap_app.
Qed.

Lemma map_flat_map {A B C} (h : B -> C) (f : A -> list B) (l : list A) :
  map h (flat_map f l) = flat_map (fun x => map h (f x)) l.
Proof. induction l as [|a l IH]; simpl; [reflexivity | rewrite map_app, IH; reflexivity]. Qed.

Lemma flat_map_ext_in {A B} (f g : A -> list B) (l : list A) :
  (forall x, In x l -> f x = g x) -> flat_map f l = flat_map g l.
Proof.
  induction l as [|a l IH]; intros H; simpl; [reflexivity |].
  rewrite (H a (or_introl eq_refl)), IH; [reflexivity |]. intros y Hy. apply H. right. exact Hy.
Qed.

(** ** X9: in every reachable state, [get_all_positions] with "open" lists
    the positions of all open entries, with "closed" all closed positions,
    and with any other status argument a permutation of the two lists
    together (no position is listed twice or left out). *)
Theorem get_all_positions_partition (rc : RiskConfig) (s : PaperTrader) (st : string) :
  reachable rc s -> st <> "open" -> st <> "closed" ->
  get_all_positions s "open" = map snd (open_entries s) /\
  get_all_positions s "closed" = closed_all s /\
  Permutation (get_all_positions s st)
    (get_all_positions s "open" ++ get_all_positions s "closed").
Proof.
  intros Hr Ho Hc. pose proof (reachable_WF rc s Hr) as Hwf.
  assert (Eo : get_all_positions s "open" = map snd (open_entries s)).
  { unfold get_all_positions, open_entries. simpl. rewrite map_flat_map.
    apply flat_map_ext_in. intros [k pf] Hin. exact (WF_open_positions s k pf Hwf Hin). }
  assert (Ec : get_all_positions s "closed" = closed_all s) by reflexivity.
  split; [exact Eo | split; [exact Ec |]].
  rewrite Eo, Ec. unfold get_all_positions, open_entries, closed_all.
  destruct (string_dec st "open"); [contradiction |].
  destruct (string_dec st "closed"); [contradiction |].
  rewrite map_flat_map. apply flat_map_app_perm.
Qed.

Lemma get_all_positions_partition_witness :
  reachable risk_config0 trader_closed /\
  Permutation (get_all_positions trader_closed "all")
    (get_all_positions trader_closed "open" ++ get_all_positions trader_closed "closed").
Proof.
  split; [exact reachable_trader_closed |].
  apply (get_all_positions_partition risk_config0 trader_closed "all" reachable_trader_closed);
    discriminate.
Defined.

Lemma win_loss_partition (l : list PaperPosition) :
  (List.length (filter is_win l) + List.length (filter is_loss l) = List.length l)%nat.
Proof.
  induction l as [|t l IH]; simpl; [reflexivity |].
  unfold is_win at 1, is_loss at 1.
  destruct (Rgt_dec (pnl t) 0); destruct (Rle_dec (pnl t) 0); simpl; try lra; lia.
Qed.

(** ** X10: for a portfolio with closed trades and a non-zero initial capital,
    [calculate_metrics] succeeds and agrees with the portfolio's own
    properties: [total_return] is [total_pnl], [total_trades],
    [winning_trades] and [win_rate] are the portfolio's; every trade is a win
    or a loss, and the win rate lies in [0, 100]. *)
Theorem calculate_metrics_portfolio_stats (h : list R) (pf : StrategyPortfolio) :
  closed_positions pf <> [] -> initial_capital pf <> 0 ->
  exists m, calculate_metrics h pf = Some m /\
    total_return m = total_pnl pf /\
    total_trades m = portfolio_total_trades pf /\
    winning_trades m = portfolio_winning_trades pf /\
    win_rate m = portfolio_win_rate pf /\
    (winning_trades m + losing_trades m = total_trades m)%nat /\
    0 <= win_rate m <= 100.
Proof.
  intros Hne H0. unfold calculate_metrics.
  destruct (closed_positions pf) as [|t ts] eqn:Ec; [contradiction |].
  destruct (Req_EM_T (initial_capital pf) 0) as [E | _]; [contradiction |].
  eexists. split; [reflexivity |].
  cbn [total_return total_trades winning_trades win_rate losing_trades].
  unfold portfolio_win_rate, total_pnl, portfolio_total_trades, portfolio_winning_trades.
  rewrite Ec. change (Nat.eqb (List.length (t :: ts)) 0) with false. cbv iota.
  split; [reflexivity | split; [reflexivity | split; [reflexivity | split; [reflexivity |]]]].
  pose proof (win_loss_partition (t :: ts)) as Hp.
  split; [exact Hp |].
  set (w := List.length (filter is_win (t :: ts))) in *.
  set (n := List.length (t :: ts)) in *.
  assert (Hw : (w <= n)%nat) by lia.
  assert (Hn : 0 < INR n) by (apply lt_0_INR; unfold n; simpl; lia).
  apply le_INR in Hw. pose proof (pos_INR w).
  split.
  - apply Rmult_le_pos; [| lra]. unfold Rdiv. apply Rmult_le_pos; [lra |].
    apply Rlt_le. apply Rinv_0_lt_compat. exact Hn.
  - replace 100 with (INR n / INR n * 100) at 2 by (field; lra).
    apply Rmult_le_compat_r; [lra |]. apply Rmult_le_compat_r; [| exact Hw].
    apply Rlt_le. apply Rinv_0_lt_compat. exact Hn.
Qed.

Definition portfolio_two_closed : StrategyPortfolio :=
  mkPortfolio "momentum" 100 (100 + pnl closed_25) [] [closed_25].

Lemma calculate_metrics_portfolio_stats_witness :
  closed_positions portfolio_two_closed <> [] /\ initial_capital portfolio_two_closed <> 0 /\
  exists m, calculate_metrics [] portfolio_two_closed = Some m /\
    total_return m = total_pnl portfolio_two_closed /\
    total_trades m = portfolio_total_trades portfolio_two_closed /\
    winning_trades m = portfolio_winning_trades portfolio_two_closed /\
    win_rate m = portfolio_win_rate portfolio_two_closed /\
    (winning_trades m + losing_trades m = total_trades m)%nat /\
    0 <= win_rate m <= 100.
Proof.
  assert (H1 : closed_positions portfolio_two_closed <> []) by discriminate.
  assert (H2 : initial_capital portfolio_two_closed <> 0) by (simpl; lra).
  split; [exact H1 | split; [exact H2 |]].
  exact (calculate_metrics_portfolio_stats [] portfolio_two_closed H1 H2).
Defined.

From Stdlib Require Import Sorted.

Lemma drawdown_loop_nonneg (peak max_dd : R) (h : list R) :
  0 <= max_dd -> 0 <= drawdown_loop peak max_dd h.
Proof.
  revert peak max_dd. induction h as [|c h IH]; intros peak max_dd H; simpl; [exact H |].
  apply IH. apply (Rle_trans _ max_dd); [exact H | apply Rmax_l].
Qed.

Lemma frac_le_1 (a b : R) : 0 < a -> 0 <= b -> (a - b) / a <= 1.
Proof.
  intros Ha Hb. replace ((a - b) / a) with (1 - b / a) by (field; lra).
  assert (0 <= b / a) by (apply Rmult_le_pos; [exact Hb | apply Rlt_le, Rinv_0_lt_compat, Ha]).
  lra.
Qed.

Lemma drawdown_loop_le_1 (peak max_dd : R) (h : list R) :
  max_dd <= 1 -> (forall c, In c h -> 0 <= c) -> drawdown_loop peak max_dd h <= 1.
Proof.
  revert peak max_dd. induction h as [|c h IH]; intros peak max_dd H Hc; simpl; [exact H |].
  apply IH; [| intros c' Hc'; apply Hc; right; exact Hc'].
  assert (H0 : 0 <= c) by (apply Hc; left; reflexivity).
  apply Rmax_lub; [exact H |].
  destruct (Rgt_dec c peak) as [Hg | Hg]; destruct (Rgt_dec _ 0) as [Hp | Hp];
    try lra; apply frac_le_1; lra.
Qed.

Lemma drawdown_loop_sorted (peak : R) (h : list R) :
  StronglySorted Rle h -> (forall c, In c h -> peak <= c) -> drawdown_loop peak 0 h = 0.
Proof.
  revert peak. induction h as [|c h IH]; intros peak Hs Hle; simpl; [reflexivity |].
  assert (Hpc : peak <= c) by (apply Hle; left; reflexivity).
  assert (E : (if Rgt_dec c peak then c else peak) = c)
    by (destruct (Rgt_dec c peak); [reflexivity | lra]).
  rewrite E.
  replace (Rmax 0 (if Rgt_dec c 0 then (c - c) / c else 0)) with 0
    by (destruct (Rgt_dec c 0); unfold Rmax; rdec; field; lra).
  apply StronglySorted_inv in Hs. destruct Hs as [Hs HF]. apply IH; [exact Hs |].
  intros c' Hc'. exact (proj1 (Forall_forall _ _) HF c' Hc').
Qed.

(** ** X11: [_calculate_max_drawdown] never returns a negative value; it
    returns at most 100 when the stored capital history is non-empty with no
    negative value, and 0 when that history never decreases. *)
Theorem calculate_max_drawdown_bounds (h : list R) (pf : StrategyPortfolio) :
  0 <= calculate_max_drawdown h pf /\
  (h <> [] -> (forall c, In c h -> 0 <= c) -> calculate_max_drawdown h pf <= 100) /\
  (h <> [] -> Sorted Rle h -> calculate_max_drawdown h pf = 0).
Proof.
  unfold calculate_max_drawdown. split; [| split].
  - destruct h as [|c0 h0].
    + destruct (running_capital _ _); [lra |].
      pose proof (drawdown_loop_nonneg (initial_capital pf) 0 (initial_capital pf :: r :: l)
                    (Rle_refl 0)). lra.
    + destruct h0; [lra |].
      pose proof (drawdown_loop_nonneg c0 0 (c0 :: r :: h0) (Rle_refl 0)). lra.
  - intros Hne Hc. destruct h as [|c0 h0]; [contradiction |].
    destruct h0; [lra |].
    pose proof (drawdown_loop_le_1 c0 0 (c0 :: r :: h0) ltac:(lra) Hc). lra.
  - intros Hne Hs. destruct h as [|c0 h0]; [contradiction |].
    destruct h0; [reflexivity |].
    apply Sorted_StronglySorted in Hs; [| intros a b d; apply Rle_trans].
    rewrite drawdown_loop_sorted; [lra | exact Hs |].
    intros c Hc. destruct Hc as [<- | Hc]; [lra |].
    apply StronglySorted_inv in Hs. exact (proj1 (Forall_forall _ _) (proj2 Hs) c Hc).
Qed.

Lemma calculate_max_drawdown_bounds_witness :
  0 <= calculate_max_drawdown [100; 80; 120] portfolio_two_closed /\
  calculate_max_drawdown [100; 80; 120] portfolio_two_closed <= 100 /\
  calculate_max_drawdown [100; 120] portfolio_two_closed = 0.
Proof.
  destruct (calculate_max_drawdown_bounds [100; 80; 120] portfolio_two_closed) as [H1 [H2 _]].
  destruct (calculate_max_drawdown_bounds [100; 120] portfolio_two_closed) as [_ [_ H3]].
  split; [exact H1 | split].
  - apply H2; [discriminate | intros c Hc; simpl in Hc; lra].
  - apply H3; [discriminate |]. repeat constructor; lra.
Defined.

(** * Further properties of the metrics engine *)

Section SortDesc.
Context {A : Type} (key : A -> R).

Definition desc (a b : A) : Prop := key b <= key a.

Lemma insert_desc_by_perm (x : A) (l : list A) : Permutation (insert_desc_by key x l) (x :: l).
Proof.
  induction l as [|y l IH]; simpl; [reflexivity |].
  destruct (Rle_dec (key x) (key y)); [| reflexivity].
  apply (Permutation_trans (perm_skip y IH)). apply perm_swap.
Qed.

Lemma sort_desc_by_perm_acc (l acc : list A) :
  Permutation (fold_left (fun acc x => insert_desc_by key x acc) l acc) (acc ++ l).
Proof.
  revert acc. induction l as [|x l IH]; intros acc; simpl; [rewrite app_nil_r; reflexivity |].
  apply (Permutation_trans (IH _)). rewrite <- (Permutation_middle acc l x).
  change (x :: acc ++ l) with ((x :: acc) ++ l).
  apply Permutation_app_tail. apply insert_desc_by_perm.
Qed.

Lemma sort_desc_by_perm (l : list A) : Permutation (sort_desc_by key l) l.
Proof. apply sort_desc_by_perm_acc. Qed.

Lemma insert_desc_by_sorted (x : A) (l : list A) :
  StronglySorted desc l -> StronglySorted desc (insert_desc_by key x l).
Proof.
  induction l as [|y l IH]; intros Hs; simpl; [repeat constructor |].
  apply StronglySorted_inv in Hs. destruct Hs as [Hs Hy].
  destruct (Rle_dec (key x) (key y)) as [Hle | Hgt].
  - constructor; [apply IH; exact Hs |].
    apply Forall_forall. intros z Hz.
    apply (Permutation_in _ (insert_desc_by_perm x l)) in Hz. destruct Hz as [<- | Hz].
    + exact Hle.
    + exact (proj1 (Forall_forall _ _) Hy z Hz).
  - constructor; [constructor; assumption |].
    constructor; [unfold desc; lra |].
    apply Forall_forall. intros z Hz. unfold desc.
    pose proof (proj1 (Forall_forall _ _) Hy z Hz) as H. unfold desc in H. lra.
Qed.

Lemma sort_desc_by_sorted (l : list A) : StronglySorted desc (sort_desc_by key l).
Proof.
  unfold sort_desc_by. assert (H : StronglySorted desc []) by constructor.
  revert H. generalize (@nil A). induction l as [|x l IH]; intros acc H; simpl; [exact H |].
  apply IH. apply insert_desc_by_sorted. exact H.
Qed.
End SortDesc.

Lemma insert_desc_eq (x : Ranking) (l : list Ranking) :
  insert_desc x l = insert_desc_by rk_score x l.
Proof. induction l as [|y l IH]; simpl; [reflexivity | rewrite IH; reflexivity]. Qed.

Lemma fold_max_spec (l : list R) (x : R) :
  (forall y, In y (x :: l) -> y <= fold_left Rmax l x) /\ In (fold_left Rmax l x) (x :: l).
Proof.
  revert x. induction l as [|a l IH]; intros x; simpl.
  - split; [intros y [<- | []]; lra | left; reflexivity].
  - destruct (IH (Rmax x a)) as [H1 H2]. split.
    + intros y [<- | [<- | Hy]].
      * apply (Rle_trans _ (Rmax x a)); [apply Rmax_l | apply H1; left; reflexivity].
      * apply (Rle_trans _ (Rmax x a)); [apply Rmax_r | apply H1; left; reflexivity].
      * apply H1. right. exact Hy.
    + destruct H2 as [E | H2].
      * rewrite <- E. unfold Rmax. destruct (Rle_dec x a); [right; left | left]; reflexivity.
      * right. right. exact H2.
Qed.

Lemma calculate_metrics_some (h : list R) (pf : StrategyPortfolio) :
  closed_positions pf <> [] -> initial_capital pf <> 0 ->
  exists m, calculate_metrics h pf = Some m /\
    peak_capital m = peak_of h (initial_capital pf) /\
    max_drawdown m = calculate_max_drawdown h pf.
Proof.
  intros Hne H0. unfold calculate_metrics.
  destruct (closed_positions pf) as [|t ts] eqn:Ec; [contradiction |].
  destruct (Req_EM_T (initial_capital pf) 0) as [E | _]; [contradiction |].
  eexists. split; [reflexivity | split; reflexivity].
Qed.

Lemma history_of_record (t : PerformanceTracker) (name n : string) (c : R) :
  history_of (record_capital_snapshot t name c) n =
  if string_dec n name then (history_of t name ++ [c])%list else history_of t n.
Proof.
  unfold history_of at 1, record_capital_snapshot. simpl. rewrite alookup_aset.
  destruct (string_dec n name); reflexivity.
Qed.

(** ** X12: [record_capital_snapshot] appends the capital to that strategy's
    history only; afterwards [calculate_metrics] on a portfolio of that
    strategy with trades (and non-zero initial capital) succeeds and reports
    as [peak_capital] the largest recorded capital; after the first snapshot
    of a strategy its [max_drawdown] is 0 whatever its trades, since a
    one-entry history replaces the one rebuilt from trades. *)
Theorem record_capital_snapshot_metrics (t : PerformanceTracker) (pf : StrategyPortfolio)
    (c : R) :
  closed_positions pf <> [] -> initial_capital pf <> 0 ->
  let name := pf_strategy_name pf in
  let t1 := record_capital_snapshot t name c in
  history_of t1 name = (history_of t name ++ [c])%list /\
  (forall n, n <> name -> history_of t1 n = history_of t n) /\
  exists m t2, tracker_calculate_metrics t1 pf = Some (m, t2) /\
    (forall x, In x (history_of t name ++ [c])%list -> x <= peak_capital m) /\
    In (peak_capital m) (history_of t name ++ [c])%list /\
    (history_of t name = [] -> max_drawdown m = 0 /\ peak_capital m = c).
Proof.
  intros Hne H0 name t1.
  assert (Eh : history_of t1 name = (history_of t name ++ [c])%list).
  { unfold t1. rewrite history_of_record. destruct (string_dec name name); congruence. }
  split; [exact Eh | split].
  { intros n Hn. unfold t1. rewrite history_of_record. destruct (string_dec n name); congruence. }
  destruct (calculate_metrics_some (history_of t1 name) pf Hne H0) as [m [Em [Hpk Hdd]]].
  assert (Ea : alookup string_dec name (capital_history t1) = Some (history_of t name ++ [c])%list).
  { unfold t1, record_capital_snapshot. simpl. rewrite alookup_aset.
    destruct (string_dec name name); congruence. }
  exists m, (mkTracker (aset string_dec name m (metrics_cache t1)) (capital_history t1)).
  split.
  - unfold tracker_calculate_metrics. fold name.
    destruct (closed_positions pf) eqn:Ec; [contradiction |].
    rewrite Em, Ea. destruct (history_of t name ++ [c])%list eqn:E.
    + exfalso. destruct (history_of t name); discriminate.
    + reflexivity.
  - assert (Hd0 : history_of t name = [] -> max_drawdown m = 0).
    { intros Hn. rewrite Hdd, Eh, Hn. reflexivity. }
    rewrite Hpk, Eh. destruct (history_of t name ++ [c])%list as [|x l] eqn:E.
    + exfalso. destruct (history_of t name); discriminate.
    + simpl. destruct (fold_max_spec l x) as [H1 H2].
      split; [exact H1 | split; [exact H2 |]].
      intros Hn. split; [exact (Hd0 Hn) |].
      rewrite Hn in E. simpl in E. inversion E; reflexivity.
Qed.

Lemma record_capital_snapshot_metrics_witness :
  closed_positions portfolio_two_closed <> [] /\ initial_capital portfolio_two_closed <> 0 /\
  exists m t2,
    tracker_calculate_metrics (record_capital_snapshot empty_tracker "momentum" 120)
      portfolio_two_closed = Some (m, t2) /\
    max_drawdown m = 0 /\ peak_capital m = 120.
Proof.
  assert (H1 : closed_positions portfolio_two_closed <> []) by discriminate.
  assert (H2 : initial_capital portfolio_two_closed <> 0) by (simpl; lra).
  split; [exact H1 | split; [exact H2 |]].
  destruct (record_capital_snapshot_metrics empty_tracker portfolio_two_closed 120 H1 H2)
    as [_ [_ [m [t2 [E [_ [_ H]]]]]]].
  exists m, t2. split; [exact E |]. apply H. reflexivity.
Defined.

(** ** X13: [calculate_metrics] never touches the capital histories nor the
    cached metrics of other strategies. For a portfolio without closed trades
    it returns the zero metrics (with the current capital) and leaves the
    cache as it was, so [get_metrics] keeps any earlier entry; with trades the
    computed metrics become the cached entry of the strategy. *)
Theorem calculate_metrics_cache (t t' : PerformanceTracker) (pf : StrategyPortfolio)
    (m : StrategyMetrics) :
  tracker_calculate_metrics t pf = Some (m, t') ->
  capital_history t' = capital_history t /\
  (forall n, n <> pf_strategy_name pf -> get_metrics t' n = get_metrics t n) /\
  (closed_positions pf = [] ->
     m = zero_metrics (pf_strategy_name pf) (current_capital pf) /\ t' = t) /\
  (closed_positions pf <> [] -> get_metrics t' (pf_strategy_name pf) = Some m).
Proof.
  unfold tracker_calculate_metrics.
  destruct (closed_positions pf) as [|c cs] eqn:Ec.
  - intros E. inversion E; subst. split; [reflexivity | split; [reflexivity |]].
    split; [intros _; split; reflexivity | intros H; contradiction].
  - destruct (calculate_metrics _ pf) as [m0|]; [| discriminate].
    destruct (alookup string_dec _ (capital_history t)) as [[|h hs]|];
      [discriminate | |]; intros E; inversion E; subst m0 t'; clear E;
      (split; [reflexivity | split; [| split]]);
      try (intros H; discriminate);
      unfold get_metrics; simpl; [intros n Hn | intros _ | intros n Hn | intros _];
      rewrite alookup_aset;
      (destruct (string_dec _ _); [first [congruence | reflexivity] | first [congruence | reflexivity]]).
Qed.

Lemma calculate_metrics_cache_witness :
  exists m t', tracker_calculate_metrics empty_tracker portfolio_two_closed = Some (m, t') /\
    get_metrics t' "momentum" = Some m.
Proof.
  destruct (calculate_metrics_some [] portfolio_two_closed ltac:(discriminate) ltac:(simpl; lra))
    as [m [Em _]].
  exists m, (mkTracker [("momentum", m)] []). 
  assert (E : tracker_calculate_metrics empty_tracker portfolio_two_closed =
              Some (m, mkTracker [("momentum", m)] [])).
  { unfold tracker_calculate_metrics.
    change (history_of empty_tracker (pf_strategy_name portfolio_two_closed)) with (@nil R).
    rewrite Em. reflexivity. }
  split; [exact E |].
  exact (proj2 (proj2 (proj2 (calculate_metrics_cache _ _ _ _ E))) ltac:(discriminate)).
Defined.

(** ** X14: [get_leaderboard] returns exactly the cached metrics with at least
    [min_trades_for_ranking] trades (each as often as it is cached), ordered
    by non-increasing Sharpe ratio. *)
Theorem get_leaderboard_spec (t : PerformanceTracker) (min_trades_for_ranking : nat) :
  let lb := get_leaderboard t min_trades_for_ranking in
  Permutation lb (filter (fun m => Nat.leb min_trades_for_ranking (total_trades m))
                    (map snd (metrics_cache t))) /\
  StronglySorted (fun a b => sharpe_ratio b <= sharpe_ratio a) lb /\
  (forall m, In m lb <->
     In m (map snd (metrics_cache t)) /\ (min_trades_for_ranking <= total_trades m)%nat).
Proof.
  intros lb. unfold lb, get_leaderboard.
  assert (P := sort_desc_by_perm sharpe_ratio
                 (filter (fun m => Nat.leb min_trades_for_ranking (total_trades m))
                    (map snd (metrics_cache t)))).
  split; [exact P | split; [exact (sort_desc_by_sorted sharpe_ratio _) |]].
  intros m. split.
  - intros H. apply (Permutation_in _ P), filter_In in H.
    destruct H as [H1 H2]. split; [exact H1 | apply Nat.leb_le; exact H2].
  - intros [H1 H2]. apply (Permutation_in _ (Permutation_sym P)), filter_In.
    split; [exact H1 | apply Nat.leb_le; exact H2].
Qed.

(** * Further properties of the allocator *)

Lemma collect_rankings_some (cfg : AllocatorConfig) (ch : string -> list R)
    (l : list (string * StrategyPortfolio)) (r : list Ranking) :
  collect_rankings cfg ch l = Some r ->
  map rk_name r = map fst l /\
  (forall x, In x r -> exists pf, In (rk_name x, pf) l /\
     calculate_metrics (ch (rk_name x)) pf = Some (rk_metrics x) /\
     rk_score x = calculate_strategy_score cfg (rk_metrics x)).
Proof.
  revert r. induction l as [|[n pf] l IH]; intros r; simpl.
  - intros E. inversion E; subst. split; [reflexivity | intros x []].
  - destruct (calculate_metrics (ch n) pf) as [m|] eqn:Em; [| discriminate].
    destruct (collect_rankings cfg ch l) as [r'|]; [| discriminate].
    intros E. inversion E; subst r. destruct (IH r' eq_refl) as [H1 H2].
    split; [simpl; rewrite H1; reflexivity |].
    intros x [<- | Hx].
    + exists pf. split; [left; reflexivity | split; [exact Em | reflexivity]].
    + destruct (H2 x Hx) as [pf' [Hi Hr]]. exists pf'. split; [right; exact Hi | exact Hr].
Qed.

Lemma collect_rankings_none (cfg : AllocatorConfig) (ch : string -> list R)
    (l : list (string * StrategyPortfolio)) :
  collect_rankings cfg ch l = None <->
  exists n pf, In (n, pf) l /\ calculate_metrics (ch n) pf = None.
Proof.
  induction l as [|[n pf] l IH]; simpl.
  - split; [discriminate | intros [n [pf [[] _]]]].
  - destruct (calculate_metrics (ch n) pf) as [m|] eqn:Em.
    + destruct (collect_rankings cfg ch l) as [r'|].
      * split; [discriminate |]. intros [n' [pf' [[E | Hi] Hn]]].
        -- inversion E; subst. congruence.
        -- assert (H : Some r' = None) by (apply IH; exists n', pf'; split; assumption).
           discriminate.
      * split; [intros _ | reflexivity].
        destruct (proj1 IH eq_refl) as [n' [pf' [Hi Hn]]].
        exists n', pf'. split; [right; exact Hi | exact Hn].
    + split; [intros _ | reflexivity]. exists n, pf. split; [left; reflexivity | exact Em].
Qed.

Lemma rank_fold_eq (r : list Ranking) :
  fold_left (fun acc x => insert_desc x acc) r [] = sort_desc_by rk_score r.
Proof.
  unfold sort_desc_by. generalize (@nil Ranking).
  induction r as [|x r IH]; intros acc; simpl; [reflexivity |].
  rewrite insert_desc_eq. apply IH.
Qed.

(** ** X15: [rank_strategies] fails exactly when [calculate_metrics] fails for
    some portfolio; otherwise it lists every strategy once per portfolio
    entry, ordered by non-increasing score, each row carrying the metrics
    computed for one of its portfolios and the score of those metrics. *)
Theorem rank_strategies_spec (cfg : AllocatorConfig) (ports : list (string * StrategyPortfolio))
    (ch : string -> list R) :
  (rank_strategies cfg ports ch = None <->
   exists n pf, In (n, pf) ports /\ calculate_metrics (ch n) pf = None) /\
  (forall r, rank_strategies cfg ports ch = Some r ->
   Permutation (map rk_name r) (map fst ports) /\
   StronglySorted (fun a b => rk_score b <= rk_score a) r /\
   (forall x, In x r -> exists pf, In (rk_name x, pf) ports /\
      calculate_metrics (ch (rk_name x)) pf = Some (rk_metrics x) /\
      rk_score x = calculate_strategy_score cfg (rk_metrics x))).
Proof.
  unfold rank_strategies. split.
  - rewrite <- (collect_rankings_none cfg).
    destruct (collect_rankings cfg ch ports); split; intros; congruence.
  - intros r. destruct (collect_rankings cfg ch ports) as [r0|] eqn:Ec; [| discriminate].
    intros E. inversion E; subst r. clear E. rewrite rank_fold_eq.
    destruct (collect_rankings_some cfg ch ports r0 Ec) as [H1 H2].
    assert (P := sort_desc_by_perm rk_score r0).
    split; [rewrite <- H1; apply Permutation_map; exact P |].
    split; [exact (sort_desc_by_sorted rk_score r0) |].
    intros x Hx. apply H2. exact (Permutation_in _ P Hx).
Qed.

(** A portfolio whose capital was reallocated to 0 but which has a closed trade *)
Definition portfolio_zero_initial : StrategyPortfolio :=
  mkPortfolio "momentum" 0 0 [] [closed_25].

Lemma rank_strategies_spec_witness :
  rank_strategies alloc_cfg0 [("momentum", portfolio_zero_initial)] (fun _ => []) = None /\
  (forall r, rank_strategies alloc_cfg0 [("momentum", portfolio_two_closed)] (fun _ => []) = Some r ->
   Permutation (map rk_name r) ["momentum"]).
Proof.
  destruct (rank_strategies_spec alloc_cfg0 [("momentum", portfolio_zero_initial)] (fun _ => []))
    as [H _].
  split.
  - apply H. exists "momentum", portfolio_zero_initial. split; [left; reflexivity |].
    unfold calculate_metrics. simpl. destruct (Req_EM_T 0 0) as [_ | C]; [reflexivity | lra].
  - intros r Hr.
    exact (proj1 (proj2 (rank_strategies_spec alloc_cfg0 [("momentum", portfolio_two_closed)]
                           (fun _ => [])) r Hr)).
Defined.

(** The bookkeeping every allocation row keeps *)
Definition row_ok (ports : list (string * StrategyPortfolio)) (r : AllocationResult) : Prop :=
  ar_current_capital r = current_of ports (ar_strategy_name r) /\
  allocation_change r = new_allocation r - ar_current_capital r.

Lemma equal_rows_fields ports (per : R) (k : nat) (l : list Ranking) :
  let rows := equal_rows ports per k l in
  map ar_strategy_name rows = map rk_name l /\ map ar_score rows = map rk_score l /\
  map rank rows = seq k (List.length l) /\
  (forall r, In r rows -> row_ok ports r /\ new_allocation r = per /\
     reason r = "equal_allocation_no_qualified").
Proof.
  revert k. induction l as [|x l IH]; intros k; simpl.
  - split; [reflexivity | split; [reflexivity | split; [reflexivity | intros r []]]].
  - destruct (IH (S k)) as [H1 [H2 [H3 H4]]].
    rewrite H1, H2, H3. split; [reflexivity | split; [reflexivity | split; [reflexivity |]]].
    intros r [<- | Hr]; [| exact (H4 r Hr)].
    split; [split; reflexivity | split; reflexivity].
Qed.

Lemma proposed_rows_fields T ports (ts ma : R) (nq k : nat) (l : list Ranking) :
  0 <= T -> 0 <= ma ->
  let rows := proposed_rows T ports ts ma nq k l in
  map ar_strategy_name rows = map rk_name l /\ map ar_score rows = map rk_score l /\
  map rank rows = seq k (List.length l) /\
  (forall r, In r rows -> row_ok ports r /\ 0 <= new_allocation r <= T * 0.5).
Proof.
  intros HT Hma. revert k. induction l as [|x l IH]; intros k; simpl.
  - split; [reflexivity | split; [reflexivity | split; [reflexivity | intros r []]]].
  - destruct (IH (S k)) as [H1 [H2 [H3 H4]]].
    rewrite H1, H2, H3. split; [reflexivity | split; [reflexivity | split; [reflexivity |]]].
    intros r [<- | Hr]; [| exact (H4 r Hr)].
    split; [split; reflexivity |]. simpl.
    set (b := if Rgt_dec ts 0 then rk_score x / ts * T else T / INR nq).
    pose proof (Rmax_l ma b). pose proof (Rmin_r (Rmax ma b) (T * 0.5)).
    split; [| exact H0].
    unfold Rmin. destruct (Rle_dec (Rmax ma b) (T * 0.5)); lra.
Qed.

Lemma normalize_fields T (rows : list AllocationResult) ports (B : R) :
  0 <= T ->
  (forall r, In r rows -> row_ok ports r /\ 0 <= new_allocation r <= B) ->
  (forall f : AllocationResult -> string * R * nat,
     (forall c r, f (scale_row c r) = f r) -> map f (normalize T rows) = map f rows) /\
  (forall r, In r (normalize T rows) -> row_ok ports r /\ 0 <= new_allocation r <= B).
Proof.
  intros HT Hrows. unfold normalize.
  destruct (Rgt_dec (rsum (map new_allocation rows)) T) as [Hgt | _];
    [| split; [reflexivity | exact Hrows]].
  set (c := T / rsum (map new_allocation rows)).
  assert (Hc : 0 <= c <= 1).
  { unfold c. split.
    - unfold Rdiv. apply Rmult_le_pos; [exact HT |]. left. apply Rinv_0_lt_compat. lra.
    - apply (Rmult_le_reg_r (rsum (map new_allocation rows))); [lra |].
      unfold Rdiv. rewrite Rmult_assoc, Rinv_l by lra. lra. }
  split.
  - intros f Hf. rewrite map_map. apply map_ext. intros r. apply Hf.
  - intros r Hr. apply in_map_iff in Hr. destruct Hr as [r0 [<- Hr0]].
    destruct (Hrows r0 Hr0) as [[Hcur Hch] [Hlo Hhi]].
    unfold row_ok, scale_row; simpl. split; [split; [exact Hcur | reflexivity] |].
    split; [apply Rmult_le_pos; lra |].
    apply (Rle_trans _ (new_allocation r0)); [| exact Hhi].
    rewrite <- (Rmult_1_r (new_allocation r0)) at 2. apply Rmult_le_compat_l; lra.
Qed.

Lemma map_triple (A : Type) (f : A -> string) (g : A -> R) (h : A -> nat) (l1 l2 : list A) :
  map (fun r => (f r, g r, h r)) l1 = map (fun r => (f r, g r, h r)) l2 ->
  map f l1 = map f l2 /\ map g l1 = map g l2 /\ map h l1 = map h l2.
Proof.
  revert l2. induction l1 as [|a l1 IH]; intros [|b l2]; simpl; intros E; try discriminate.
  - repeat split.
  - inversion E as [[E1 E2 E3 E4]]. destruct (IH l2 E4) as [F1 [F2 F3]].
    rewrite E1, E2, E3, F1, F2, F3. repeat split.
Qed.

(** ** X16: for a total capital [T >= 0], [calculate_allocations] gives one row
    per qualified strategy, in ranking order (or, when none qualifies, one
    row per ranked strategy), with ranks 1, 2, ..., the strategy's score, its
    portfolio's current capital (0 for an unknown strategy),
    [allocation_change = new_allocation - current_capital] and a non-negative
    allocation; with qualified strategies no allocation exceeds half of [T],
    otherwise every strategy gets [T / n] with reason
    ["equal_allocation_no_qualified"]. *)
Theorem calculate_allocations_rows (mtr : nat) (T : R)
    (ports : list (string * StrategyPortfolio)) (rankings : list Ranking) :
  0 <= T ->
  let rows := calculate_allocations_ranked mtr T ports rankings in
  let q := filter (is_qualified mtr) rankings in
  let chosen := match q with [] => rankings | _ => q end in
  map ar_strategy_name rows = map rk_name chosen /\
  map ar_score rows = map rk_score chosen /\
  map rank rows = seq 1 (List.length chosen) /\
  (forall r, In r rows -> row_ok ports r /\ 0 <= new_allocation r) /\
  (q = [] -> forall r, In r rows ->
     new_allocation r = T / INR (List.length rankings) /\
     reason r = "equal_allocation_no_qualified") /\
  (q <> [] -> forall r, In r rows -> new_allocation r <= T * 0.5).
Proof.
  intros HT rows q chosen. unfold rows, chosen, q. clear rows chosen q.
  destruct rankings as [|x rs].
  - simpl. split; [reflexivity | split; [reflexivity | split; [reflexivity |]]].
    split; [intros r [] | split; intros _ r []].
  - unfold calculate_allocations_ranked.
    destruct (filter (is_qualified mtr) (x :: rs)) as [|y ys] eqn:Eq.
    + destruct (equal_rows_fields ports (T / INR (List.length (x :: rs))) 1 (x :: rs))
        as [H1 [H2 [H3 H4]]].
      split; [exact H1 | split; [exact H2 | split; [exact H3 |]]].
      assert (Hper : 0 <= T / INR (List.length (x :: rs))).
      { simpl List.length. rewrite S_INR. pose proof (pos_INR (List.length rs)).
        unfold Rdiv. apply Rmult_le_pos; [exact HT |]. left. apply Rinv_0_lt_compat. lra. }
      split; [intros r Hr; destruct (H4 r Hr) as [Ho [Hn _]]; split; [exact Ho | lra] |].
      split; [intros _ r Hr; exact (proj2 (H4 r Hr)) | intros C; exfalso; apply C; reflexivity].
    + set (ma := T / INR (List.length (y :: ys)) * 0.1).
      assert (Hma : 0 <= ma).
      { unfold ma. simpl List.length. rewrite S_INR. pose proof (pos_INR (List.length ys)).
        apply Rmult_le_pos; [| lra].
        unfold Rdiv. apply Rmult_le_pos; [exact HT |]. left. apply Rinv_0_lt_compat. lra. }
      destruct (proposed_rows_fields T ports (rsum (map rk_score (y :: ys))) ma
                  (List.length (y :: ys)) 1 (y :: ys) HT Hma) as [H1 [H2 [H3 H4]]].
      destruct (normalize_fields T _ ports (T * 0.5) HT H4) as [Hmap Hin].
      destruct (map_triple _ ar_strategy_name ar_score rank _ _
                  (Hmap (fun r => (ar_strategy_name r, ar_score r, rank r))
                        (fun c r => eq_refl))) as [G1 [G2 G3]].
      rewrite G1, G2, G3.
      split; [exact H1 | split; [exact H2 | split; [exact H3 |]]].
      split; [intros r Hr; destruct (Hin r Hr) as [Ho [Hlo _]]; split; assumption |].
      split; [intros C; discriminate | intros _ r Hr; exact (proj2 (proj2 (Hin r Hr)))].
Qed.

Lemma calculate_allocations_rows_witness :
  0 <= 200 /\
  map rank (calculate_allocations_ranked 5 200 ports_three rankings_three) = [1; 2; 3]%nat.
Proof.
  split; [lra |].
  destruct (calculate_allocations_rows 5 200 ports_three rankings_three ltac:(lra))
    as [_ [_ [H _]]].
  rewrite H, rankings_three_all_qualified. reflexivity.
Defined.

Lemma alookup_some_key (k : string) (pf : StrategyPortfolio) (l : list (string * StrategyPortfolio)) :
  alookup string_dec k l = Some pf -> In k (map fst l).
Proof.
  induction l as [|[k1 v1] l IH]; simpl; [discriminate |].
  destruct (string_dec k k1) as [-> | _]; [left; reflexivity | intros H; right; exact (IH H)].
Qed.

(** The rows of [allocations] that name strategy [k] *)
Definition rows_for (k : string) (allocs : list AllocationResult) : list AllocationResult :=
  filter (fun a => if string_dec (ar_strategy_name a) k then true else false) allocs.

Lemma apply_allocation_keys (ps : list (string * StrategyPortfolio)) (a : AllocationResult) :
  map fst (apply_allocation ps a) = map fst ps.
Proof.
  unfold apply_allocation. destruct (alookup string_dec (ar_strategy_name a) ps) eqn:E;
    [| reflexivity].
  apply aset_keys. exact (alookup_some_key _ _ _ E).
Qed.

Lemma apply_allocation_lookup (ps : list (string * StrategyPortfolio)) (a : AllocationResult)
    (k : string) :
  alookup string_dec k (apply_allocation ps a) =
  match alookup string_dec k ps with
  | None => None
  | Some pf =>
    Some (if string_dec (ar_strategy_name a) k
          then mkPortfolio (pf_strategy_name pf) (new_allocation a) (new_allocation a)
                 (positions pf) (closed_positions pf)
          else pf)
  end.
Proof.
  unfold apply_allocation.
  destruct (alookup string_dec (ar_strategy_name a) ps) as [pf0|] eqn:E.
  - rewrite alookup_aset. destruct (string_dec k (ar_strategy_name a)) as [-> | Hne].
    + rewrite E. destruct (string_dec _ _); [reflexivity | congruence].
    + destruct (alookup string_dec k ps); [| reflexivity].
      destruct (string_dec (ar_strategy_name a) k); [congruence | reflexivity].
  - destruct (alookup string_dec k ps) as [pf|] eqn:Ek; [| reflexivity].
    destruct (string_dec (ar_strategy_name a) k) as [Ea | _];
      [rewrite Ea in E; congruence | reflexivity].
Qed.

Lemma rows_for_cons (k : string) (a : AllocationResult) (l : list AllocationResult) :
  rows_for k (a :: l) =
  if string_dec (ar_strategy_name a) k then a :: rows_for k l else rows_for k l.
Proof. unfold rows_for. simpl. destruct (string_dec (ar_strategy_name a) k); reflexivity. Qed.

Lemma last_default {A : Type} (x : A) (l : list A) (d d' : A) :
  last (x :: l) d = last (x :: l) d'.
Proof.
  revert x. induction l as [|y l IH]; intros x; [reflexivity |].
  change (last (x :: y :: l) d) with (last (y :: l) d).
  change (last (x :: y :: l) d') with (last (y :: l) d'). apply IH.
Qed.

Lemma fold_apply_allocation (allocs : list AllocationResult)
    (ps : list (string * StrategyPortfolio)) (k : string) :
  map fst (fold_left apply_allocation allocs ps) = map fst ps /\
  alookup string_dec k (fold_left apply_allocation allocs ps) =
  match alookup string_dec k ps with
  | None => None
  | Some pf =>
    Some (match rows_for k allocs with
          | [] => pf
          | a :: _ =>
            let v := new_allocation (last (rows_for k allocs) a) in
            mkPortfolio (pf_strategy_name pf) v v (positions pf) (closed_positions pf)
          end)
  end.
Proof.
  revert ps. induction allocs as [|a l IH]; intros ps.
  - simpl. split; [reflexivity |]. destruct (alookup string_dec k ps); reflexivity.
  - cbn [fold_left]. destruct (IH (apply_allocation ps a)) as [Hk Hl].
    split; [rewrite Hk; apply apply_allocation_keys |].
    rewrite Hl, apply_allocation_lookup, rows_for_cons.
    destruct (alookup string_dec k ps) as [pf|]; [| reflexivity].
    destruct (string_dec (ar_strategy_name a) k) as [E | Hne]; [| reflexivity].
    destruct (rows_for k l) as [|b bs] eqn:Er; [reflexivity |].
    change (last (a :: b :: bs) a) with (last (b :: bs) a).
    rewrite (last_default b bs a b). reflexivity.
Qed.

(** ** X17: when a rebalance is not due, [rebalance] changes nothing and
    returns no rows. When it is due and the allocations are computed, it
    records the time and appends the rows to the history, keeps the daily
    P&L, the id counter and the set of strategies, and gives every portfolio
    named by some row [current_capital = initial_capital =] the
    [new_allocation] of the last such row, keeping its open and closed
    positions; portfolios named by no row, and the other counters, are left
    as they were. *)
Theorem rebalance_effect (cfg : AllocatorConfig) (mtr : nat) (T hours : R)
    (ch : string -> list R) (st : AllocState) (s : PaperTrader) (now : Z) :
  (should_rebalance hours st now = false ->
   rebalance cfg mtr T hours ch st s now = Some ([], st, s)) /\
  (forall allocs st' s',
   should_rebalance hours st now = true ->
   rebalance cfg mtr T hours ch st s now = Some (allocs, st', s') ->
   calculate_allocations cfg mtr T (portfolios s) ch = Some allocs /\
   last_rebalance st' = Some now /\
   allocation_history st' = (allocation_history st ++ [(now, allocs)])%list /\
   daily_pnl s' = daily_pnl s /\ next_uuid s' = next_uuid s /\
   map fst (portfolios s') = map fst (portfolios s) /\
   (forall k pf, alookup string_dec k (portfolios s) = Some pf ->
      exists pf', alookup string_dec k (portfolios s') = Some pf' /\
        pf_strategy_name pf' = pf_strategy_name pf /\
        positions pf' = positions pf /\ closed_positions pf' = closed_positions pf /\
        (rows_for k allocs = [] -> pf' = pf) /\
        (forall a, In a (rows_for k allocs) ->
           current_capital pf' = new_allocation (last (rows_for k allocs) a) /\
           initial_capital pf' = current_capital pf'))).
Proof.
  unfold rebalance. split; [intros E; rewrite E; reflexivity |].
  intros allocs st' s' E. rewrite E. simpl.
  destruct (calculate_allocations cfg mtr T (portfolios s) ch) as [al|]; [| discriminate].
  intros H. inversion H; subst. clear H.
  split; [reflexivity | split; [reflexivity | split; [reflexivity |]]].
  split; [reflexivity | split; [reflexivity |]]. simpl.
  split; [exact (proj1 (fold_apply_allocation allocs (portfolios s) ""))|].
  intros k pf Hk. rewrite (proj2 (fold_apply_allocation allocs (portfolios s) k)), Hk.
  destruct (rows_for k allocs) as [|b bs] eqn:Er.
  - exists pf. split; [reflexivity | split; [reflexivity | split; [reflexivity |]]].
    split; [reflexivity | split; [intros _; reflexivity | intros a []]].
  - eexists. split; [reflexivity |]. simpl.
    split; [reflexivity | split; [reflexivity | split; [reflexivity |]]].
    split; [discriminate |]. intros a Ha.
    split; [| reflexivity]. simpl. f_equal.
    destruct bs as [|c bs']; [reflexivity | apply last_default].
Qed.

Lemma rebalance_effect_witness :
  should_rebalance 1 (mkAllocState (Some 0%Z) []) 100 = false /\
  rebalance alloc_cfg0 5 200 1 (fun _ => []) (mkAllocState (Some 0%Z) []) trader_100 100
  = Some ([], mkAllocState (Some 0%Z) [], trader_100) /\
  should_rebalance 1 (mkAllocState None []) 100 = true /\
  (forall allocs st' s',
   rebalance alloc_cfg0 5 200 1 (fun _ => []) (mkAllocState None []) trader_100 100
   = Some (allocs, st', s') -> last_rebalance st' = Some 100%Z).
Proof.
  assert (H : should_rebalance 1 (mkAllocState (Some 0%Z) []) 100 = false).
  { unfold should_rebalance. simpl. destruct (Rge_dec _ _); [lra | reflexivity]. }
  assert (H' : should_rebalance 1 (mkAllocState None []) 100 = true) by reflexivity.
  split; [exact H | split; [| split; [exact H' |]]].
  - exact (proj1 (rebalance_effect alloc_cfg0 5 200 1 (fun _ => [])
                    (mkAllocState (Some 0%Z) []) trader_100 100) H).
  - intros allocs st' s' E.
    exact (proj1 (proj2 (proj2 (rebalance_effect alloc_cfg0 5 200 1 (fun _ => [])
              (mkAllocState None []) trader_100 100) allocs st' s' H' E))).
Defined.

(** * Further properties of [check_exits] *)

Definition exit_yes (md : MarketData) : R :=
  match md_yes_price md with Some y => y | None => 0.5 end.

Lemma check_exits_loop_result (st : Strategy) (md : MarketData) (now : Z)
    (snapshot : list PaperPosition) (s : PaperTrader) :
  let res := check_exits_loop st md now snapshot s in
  Permutation (closed_all (snd res)) (fst res ++ closed_all s) /\
  daily_pnl (snd res) = daily_pnl s + rsum (map pnl (fst res)) /\
  next_uuid (snd res) = next_uuid s /\
  (List.length (fst res) <= List.length snapshot)%nat /\
  (forall r, In r (fst res) -> exists pos, r = mark_closed (exit_yes md) "strategy_exit" now pos).
Proof.
  revert s. induction snapshot as [|p rest IH]; intros s; simpl.
  - split; [reflexivity | split; [lra | split; [reflexivity | split; [lia | intros r []]]]].
  - destruct (negb (ticker_matches md p)).
    + destruct (IH s) as [H1 [H2 [H3 [H4 H5]]]].
      split; [exact H1 | split; [exact H2 | split; [exact H3 | split; [lia | exact H5]]]].
    + destruct (should_exit st _ md).
      2: { destruct (IH s) as [H1 [H2 [H3 [H4 H5]]]].
           split; [exact H1 | split; [exact H2 | split; [exact H3 | split; [lia | exact H5]]]]. }
      fold (exit_yes md).
      destruct (close_position s (pos_id p) (exit_yes md) "strategy_exit" now) as [res s1] eqn:E.
      destruct (check_exits_loop st md now rest s1) as [cl s2] eqn:El.
      destruct (IH s1) as [H1 [H2 [H3 [H4 H5]]]]. rewrite El in H1, H2, H3, H4, H5.
      simpl in H1, H2, H3, H4, H5. destruct res as [r|].
      * destruct (close_position_some _ _ _ _ _ _ _ E) as [pos [Hr [_ [Hc [Hu Hd]]]]].
        simpl. split.
        { apply (Permutation_trans H1). rewrite Hc. apply Permutation_sym, Permutation_middle. }
        split; [rewrite H2, Hd; lra |]. split; [rewrite H3; exact Hu |].
        split; [lia |]. intros r' [<- | Hr']; [exists pos; exact Hr | exact (H5 r' Hr')].
      * apply close_position_none_state in E. subst s1. simpl.
        split; [exact H1 | split; [exact H2 | split; [exact H3 | split; [lia | exact H5]]]].
Qed.

(** ** X18: [check_exits] on market data without ["market_id"], or for a
    strategy without a portfolio, closes nothing and changes nothing.
    Otherwise the positions it returns are exactly the ones it closed: the
    closed lists gain them, the daily P&L grows by their P&L, there are at
    most as many as the strategy's open positions, and each is closed at the
    snapshot's ["yes_price"] (0.5 when absent) with reason
    ["strategy_exit"]. *)
Theorem check_exits_result (s : PaperTrader) (st : Strategy) (md : MarketData) (now : Z) :
  let res := check_exits s st md now in
  ((md_market_id md = None \/ alookup string_dec (st_name st) (portfolios s) = None) ->
   res = ([], s)) /\
  Permutation (closed_all (snd res)) (fst res ++ closed_all s) /\
  daily_pnl (snd res) = daily_pnl s + rsum (map pnl (fst res)) /\
  (forall pf, alookup string_dec (st_name st) (portfolios s) = Some pf ->
     (List.length (fst res) <= List.length (open_positions pf))%nat) /\
  (forall r, In r (fst res) ->
     status r = CLOSED /\
     alookup string_dec "close_reason" (metadata r) = Some "strategy_exit" /\
     exit_price r = Some (if string_dec (side r) "yes" then exit_yes md else 1 - exit_yes md)).
Proof.
  intros res. unfold res, check_exits. clear res.
  destruct (alookup string_dec (st_name st) (portfolios s)) as [pf|] eqn:Ep.
  2: { split; [reflexivity |]. simpl. split; [reflexivity | split; [lra |]].
       split; [discriminate | intros r []]. }
  destruct (check_exits_loop_result st md now (open_positions pf) s) as [H1 [H2 [_ [H4 H5]]]].
  split.
  - intros [Hm | Hn]; [| discriminate].
    assert (G : forall snap s0, check_exits_loop st md now snap s0 = ([], s0)).
    { induction snap as [|p rest IH]; intros s0; simpl; [reflexivity |].
      unfold ticker_matches. rewrite Hm. simpl. apply IH. }
    apply G.
  - split; [exact H1 | split; [exact H2 | split; [intros pf' E; inversion E; subst; exact H4 |]]].
    intros r Hr. destruct (H5 r Hr) as [pos ->]. unfold mark_closed. simpl.
    split; [reflexivity | split; [rewrite alookup_aset; reflexivity | reflexivity]].
Qed.

Lemma check_exits_result_witness :
  check_exits trader_100_after exit_always (mkMarketData None (Some 0.3)) 7 = ([], trader_100_after).
Proof.
  exact (proj1 (check_exits_result trader_100_after exit_always (mkMarketData None (Some 0.3)) 7)
           (or_introl eq_refl)).
Defined.

(** * Re-initializing a portfolio *)

Lemma nodup_app_disj {A} (a b : list A) (x : A) :
  NoDup (a ++ b) -> In x a -> ~ In x b.
Proof.
  induction a as [|y a IH]; simpl; [intros _ [] |].
  intros Hnd [<- | Hx]; apply NoDup_cons_iff in Hnd; destruct Hnd as [Hy Hnd].
  - intros Hb. apply Hy. apply in_or_app. right. exact Hb.
  - apply IH; assumption.
Qed.

(** ** X19: [initialize_portfolio] on a strategy that already has a portfolio
    replaces it with a fresh one ([initial_capital = current_capital =]
    [capital], no positions): its open positions and closed trades drop out
    of the ledger, and on a well-formed ledger a later [close_position] of
    any of those open positions finds nothing, so their cost is never
    returned to any capital. *)
Theorem initialize_portfolio_discards (s : PaperTrader) (name : string) (cap : R)
    (pf : StrategyPortfolio) :
  alookup string_dec name (portfolios s) = Some pf ->
  let s' := initialize_portfolio s name cap in
  alookup string_dec name (portfolios s') = Some (mkPortfolio name cap cap [] []) /\
  Permutation (open_entries s) (positions pf ++ open_entries s') /\
  Permutation (closed_all s) (closed_positions pf ++ closed_all s') /\
  (WF s -> forall id p x reason now, In (id, p) (positions pf) ->
     close_position s' id x reason now = (None, s')).
Proof.
  intros Hl s'.
  destruct (alookup_split string_dec name pf _ Hl) as [l1 [l2 [E [_ [_ Hs]]]]].
  assert (Hp : portfolios s' = l1 ++ (name, mkPortfolio name cap cap [] []) :: l2).
  { unfold s', initialize_portfolio. simpl. apply Hs. }
  split; [unfold s', initialize_portfolio; simpl; rewrite alookup_aset;
          destruct (string_dec name name); congruence |].
  assert (Ho : Permutation (open_entries s) (positions pf ++ open_entries s')).
  { unfold open_entries. rewrite Hp, E, !flat_map_mid. simpl. apply Permutation_app_swap_app. }
  split; [exact Ho |].
  split.
  { unfold closed_all. rewrite Hp, E, !flat_map_mid. simpl. apply Permutation_app_swap_app. }
  intros [Hnd _] id p x reason now Hin. apply close_position_none.
  assert (Hnd' : NoDup (map fst (positions pf ++ open_entries s'))).
  { apply (Permutation_NoDup (Permutation_map fst Ho)). exact Hnd. }
  rewrite map_app in Hnd'. apply (nodup_app_disj _ _ _ Hnd').
  apply (in_map fst _ _ Hin).
Qed.

Lemma initialize_portfolio_discards_witness :
  alookup string_dec "momentum" (portfolios trader_100_after) =
    Some (mkPortfolio "momentum" 100 100 [(0%nat, position_25)] []) /\
  WF trader_100_after /\
  close_position (initialize_portfolio trader_100_after "momentum" 100) 0 0.3 "signal" 0
  = (None, initialize_portfolio trader_100_after "momentum" 100).
Proof.
  assert (Hl : alookup string_dec "momentum" (portfolios trader_100_after) =
                 Some (mkPortfolio "momentum" 100 100 [(0%nat, position_25)] [])) by reflexivity.
  assert (Hw : WF trader_100_after) by exact (reachable_WF _ _ reachable_trader_100_after).
  split; [exact Hl | split; [exact Hw |]].
  exact (proj2 (proj2 (proj2 (initialize_portfolio_discards trader_100_after "momentum" 100 _ Hl)))
           Hw 0%nat position_25 0.3 "signal" 0%Z (or_introl eq_refl)).
Defined.

(** * The profit metrics of [calculate_metrics] *)

Lemma rsum_win_loss (l : list PaperPosition) :
  rsum (map pnl l) = rsum (map pnl (filter is_win l)) + rsum (map pnl (filter is_loss l)).
Proof.
  induction l as [|t l IH]; simpl; [lra |].
  unfold is_win at 1, is_loss at 1.
  destruct (Rgt_dec (pnl t) 0); destruct (Rle_dec (pnl t) 0); simpl; try lra.
Qed.

Lemma rsum_wins_pos (l : list PaperPosition) :
  filter is_win l <> [] -> 0 < rsum (map pnl (filter is_win l)).
Proof.
  induction l as [|t l IH]; simpl; [contradiction |].
  destruct (is_win t) eqn:Ew; [intros _ | exact IH].
  assert (Hp : pnl t > 0) by (unfold is_win in Ew; destruct (Rgt_dec (pnl t) 0); [exact r | discriminate]).
  change (0 < pnl t + rsum (map pnl (filter is_win l))).
  destruct (filter is_win l) eqn:E.
  - simpl. lra.
  - assert (H : 0 < rsum (map pnl (p :: l0))) by (apply IH; discriminate).
    lra.
Qed.

Lemma rsum_losses_nonpos (l : list PaperPosition) : rsum (map pnl (filter is_loss l)) <= 0.
Proof.
  induction l as [|t l IH]; simpl; [lra |].
  unfold is_loss at 1. destruct (Rle_dec (pnl t) 0); simpl; lra.
Qed.

(** ** X20: for a portfolio with closed trades and a non-zero initial capital,
    the metrics satisfy [expectancy = win_rate/100 * average_win +
    (losing_trades/total_trades) * average_loss]; [average_win] is positive
    when there are winning trades (0 otherwise), [average_loss] is never
    positive, and [profit_factor] is a finite non-negative number exactly
    when some trade lost money. *)
Theorem calculate_metrics_expectancy (h : list R) (pf : StrategyPortfolio) :
  closed_positions pf <> [] -> initial_capital pf <> 0 ->
  exists m, calculate_metrics h pf = Some m /\
    expectancy m = win_rate m / 100 * average_win m
                   + INR (losing_trades m) / INR (total_trades m) * average_loss m /\
    ((0 < winning_trades m)%nat -> 0 < average_win m) /\
    (winning_trades m = 0%nat -> average_win m = 0) /\
    average_loss m <= 0 /\
    (forall v, profit_factor m = Fin v -> 0 <= v).
Proof.
  intros Hne H0. unfold calculate_metrics.
  destruct (closed_positions pf) as [|t ts] eqn:Ec; [contradiction |].
  destruct (Req_EM_T (initial_capital pf) 0) as [E | _]; [contradiction |].
  eexists. split; [reflexivity |].
  cbn [expectancy win_rate average_win average_loss losing_trades total_trades
       winning_trades profit_factor].
  set (l := t :: ts) in *.
  pose proof (rsum_win_loss l) as Hs. pose proof (rsum_losses_nonpos l) as Hl.
  assert (Hn : 0 < INR (List.length l)) by (apply lt_0_INR; unfold l; simpl; lia).
  assert (HwlR : INR (List.length (filter is_win l)) + INR (List.length (filter is_loss l))
                 = INR (List.length l)) by (rewrite <- plus_INR, win_loss_partition; reflexivity).
  split.
  - clear Hl. clearbody l.
    destruct (filter is_win l) as [|w ws]; destruct (filter is_loss l) as [|u us]; cbv beta iota;
      change (rsum (map pnl [])) with 0 in *;
      change (List.length (@nil PaperPosition)) with 0%nat in *; change (INR 0) with 0 in *.
    + lra.
    + assert (0 < INR (List.length (u :: us))) by (apply lt_0_INR; simpl; lia).
      rewrite Hs, <- HwlR. field; repeat split; lra.
    + assert (0 < INR (List.length (w :: ws))) by (apply lt_0_INR; simpl; lia).
      rewrite Hs, <- HwlR. field; repeat split; lra.
    + assert (0 < INR (List.length (w :: ws))) by (apply lt_0_INR; simpl; lia).
      assert (0 < INR (List.length (u :: us))) by (apply lt_0_INR; simpl; lia).
      rewrite Hs, <- HwlR. field; repeat split; lra.
  - split; [| split; [| split]].
    + destruct (filter is_win l) as [|w ws] eqn:Ew; simpl; [lia | intros _].
      assert (Hp : 0 < rsum (map pnl (filter is_win l))) by (apply rsum_wins_pos; rewrite Ew; discriminate).
      rewrite Ew in Hp. simpl in Hp.
      assert (0 < INR (S (List.length ws))) by (apply lt_0_INR; lia).
      unfold Rdiv. apply Rmult_lt_0_compat; [exact Hp | apply Rinv_0_lt_compat; exact H].
    + destruct (filter is_win l); simpl; [reflexivity | discriminate].
    + destruct (filter is_loss l) as [|u us] eqn:Eu; [lra |].
      assert (0 < INR (List.length (u :: us))) by (apply lt_0_INR; simpl; lia).
      unfold Rdiv. rewrite <- (Rmult_0_l (/ INR (List.length (u :: us)))).
      apply Rmult_le_compat_r; [left; apply Rinv_0_lt_compat; exact H | exact Hl].
    + assert (Hgp : 0 <= match filter is_win l with
                          | [] => 0 | _ => rsum (map pnl (filter is_win l)) end).
      { pose proof (rsum_wins_pos l) as Hw.
        destruct (filter is_win l); [lra | left; apply Hw; discriminate]. }
      intros v. destruct (Rgt_dec _ 0) as [Hg | _]; [| discriminate].
      intros Ev. injection Ev as <-.
      unfold Rdiv. apply Rmult_le_pos; [exact Hgp | left; apply Rinv_0_lt_compat; exact Hg].
Qed.

Lemma calculate_metrics_expectancy_witness :
  closed_positions portfolio_two_closed <> [] /\ initial_capital portfolio_two_closed <> 0 /\
  exists m, calculate_metrics [] portfolio_two_closed = Some m /\
    expectancy m = win_rate m / 100 * average_win m
                   + INR (losing_trades m) / INR (total_trades m) * average_loss m.
Proof.
  assert (H1 : closed_positions portfolio_two_closed <> []) by discriminate.
  assert (H2 : initial_capital portfolio_two_closed <> 0) by (simpl; lra).
  split; [exact H1 | split; [exact H2 |]].
  destruct (calculate_metrics_expectancy [] portfolio_two_closed H1 H2) as [m [E [Hx _]]].
  exists m. split; [exact E | exact Hx].
Defined.
